(** * StaticSystem: a shallow embedding of [staticsystem.py]

    The Python class [StaticSystem] keeps the state of a gravitational
    system in three numpy arrays and a dictionary from body names to
    slots.  This development embeds its constructor and its methods
    ([step], [centre_of_mass], [fix], [get_body]) and settles the
    properties the specification states about them.

    Conventions of the embedding:
    - a float is an exact real number ([R]): there is no rounding, no
      overflow and no underflow.  Where numpy divides by a value that
      can be zero the quotient is an [npfloat], whose [NonFinite] stands
      for the nan or infinity numpy stores silently.  A statement that
      is exact only for real numbers says so ("under exact arithmetic");
      the others are about shapes, exceptions, the state that is kept
      and values that floats compute exactly;
    - a call that can raise returns a [result];
    - a method is a function from the state of [self] to an outcome and
      the state of [self] afterwards. *)

From Stdlib Require Import Reals Lra List.
From stdpp Require Import gmap strings list.

Open Scope R_scope.

(** ** Exceptions and results *)

Inductive exception : Type :=
| AttributeError (msg : string)
| IndexError
| TypeError
| ValueError.

(** The outcome of a call: a value, an exception, or, for the
    constructor on already shaped state only, attributes of types other
    than the class documents, which Python stores without complaint and
    which this embedding does not represent. *)
Inductive result (A : Type) : Type :=
| Return (a : A)
| Raise (e : exception)
| IllTyped.

Arguments Return {A} a.
Arguments Raise {A} e.
Arguments IllTyped {A}.

#[global] Instance result_ret : MRet result := fun A a => Return a.

#[global] Instance result_bind : MBind result := fun A B k r =>
  match r with
  | Return a => k a
  | Raise e => Raise e
  | IllTyped => IllTyped
  end.

Definition raises {A : Type} (r : result A) : Prop :=
  exists e, r = Raise e.

(** ** numpy values *)

(** A two-dimensional array: the number of columns ([shape[1]]) and the
    rows.  numpy arrays are rectangular, which is [wf_array]. *)
Record ndarray2 (A : Type) : Type := NDArray2 {
  shape1 : nat;
  rows : list (list A)
}.

Arguments NDArray2 {A} shape1 rows.
Arguments shape1 {A} n.
Arguments rows {A} n.

Definition shape0 {A : Type} (a : ndarray2 A) : nat := length (rows a).

Definition wf_array {A : Type} (a : ndarray2 A) : Prop :=
  Forall (fun r => length r = shape1 a) (rows a).

(** The quotient of a numpy true division: dividing by zero raises
    nothing, it stores nan or an infinity.  Over exact reals this is
    the only source of a value that is not finite; the overflow of
    floats is outside the embedding. *)
Inductive npfloat : Type :=
| Finite (r : R)
| NonFinite.

Definition np_divide (x y : R) : npfloat :=
  if Req_dec_T y 0 then NonFinite else Finite (x / y).

Definition np_subtract (x y : npfloat) : npfloat :=
  match x, y with
  | Finite a, Finite b => Finite (a - b)
  | _, _ => NonFinite
  end.

(** Sum of the entries of a one-dimensional array ([a.sum()]). *)
Definition Rsum (l : list R) : R := foldr Rplus 0 l.

(** [a.sum(axis=0)] of an array with [d] columns given by its rows: the
    sum of the rows, a vector of length [d] (the zero vector when there
    is no row). *)
Definition sum_rows (d : nat) (vs : list (list R)) : list R :=
  foldr (zip_with Rplus) (replicate d 0) vs.

(** [np.zeros((n, d))]. *)
Definition np_zeros2 (n d : nat) : ndarray2 R :=
  NDArray2 d (replicate n (replicate d 0)).

(** ** Bodies

    Modelled from the spec: the class [PointMass] is imported from the
    module [pointmass], which is not part of the sources; the
    specification describes it as a record with a name, a mass, a
    position vector and a velocity vector. *)
Record PointMass : Type := mkPointMass {
  name : string;
  mass : R;
  position : list R;
  velocity : list R
}.

(** ** The state of a [StaticSystem]

    The velocities are typed apart because [fix] can leave values there
    that are not real numbers. *)
Record SystemOf (V : Type) : Type := mkSystem {
  bodyindex : gmap string nat;
  all_positions : ndarray2 R;
  all_velocities : ndarray2 V;
  all_masses : list R
}.

Arguments mkSystem {V} bodyindex all_positions all_velocities all_masses.
Arguments bodyindex {V} s.
Arguments all_positions {V} s.
Arguments all_velocities {V} s.
Arguments all_masses {V} s.

Abbreviation StaticSystem := (SystemOf R).

(** The invariant of the data model: both arrays are rectangular with
    the same shape, and there is one mass per row. *)
Definition wf_system (s : StaticSystem) : Prop :=
  wf_array (all_positions s) /\
  wf_array (all_velocities s) /\
  shape1 (all_velocities s) = shape1 (all_positions s) /\
  shape0 (all_velocities s) = shape0 (all_positions s) /\
  length (all_masses s) = shape0 (all_positions s).

(** ** Python values passed to the constructor *)

Inductive pyval : Type :=
| VBool (b : bool)
| VBody (b : PointMass)
| VArray1 (a : list R)
| VArray2 (a : ndarray2 R)
| VDict (d : gmap string nat).

Definition type_name (v : pyval) : string :=
  match v with
  | VBool _ => "bool"
  | VBody _ => "PointMass"
  | VArray1 _ | VArray2 _ => "numpy.ndarray"
  | VDict _ => "dict"
  end.

Definition no_attribute {A : Type} (v : pyval) (attr : string) : result A :=
  Raise (AttributeError
           (String.append "'" (String.append (type_name v)
              (String.append "' object has no attribute '"
                 (String.append attr "'"))))).

Definition getattr_name (v : pyval) : result string :=
  match v with VBody b => Return (name b) | _ => no_attribute v "name" end.

Definition getattr_position (v : pyval) : result (list R) :=
  match v with VBody b => Return (position b) | _ => no_attribute v "position" end.

Definition getattr_velocity (v : pyval) : result (list R) :=
  match v with VBody b => Return (velocity b) | _ => no_attribute v "velocity" end.

Definition getattr_mass (v : pyval) : result R :=
  match v with VBody b => Return (mass b) | _ => no_attribute v "mass" end.

(** [args[i]] on the tuple of positional arguments. *)
Definition getitem (args : list pyval) (i : nat) : result pyval :=
  match args !! i with
  | Some v => Return v
  | None => Raise IndexError
  end.

(** The truth value of an array ([bool(a)]), from its entries: an array
    of several entries has none and raises [ValueError]; an array of one
    entry is true when the entry is not zero.  For an empty array numpy
    before 2.2 answers [False] (with a deprecation warning) and numpy
    from 2.2 on raises. *)
Inductive numpy_version : Type :=
| NumpyBefore_2_2
| NumpyFrom_2_2.

Definition array_truth (np : numpy_version) (entries : list R) : result bool :=
  match entries with
  | [] => match np with
          | NumpyBefore_2_2 => Return false
          | NumpyFrom_2_2 => Raise ValueError
          end
  | [x] => Return (if Req_dec_T x 0 then false else true)
  | _ :: _ :: _ => Raise ValueError
  end.

(** The truth value Python's [if] takes of a value. *)
Definition truth (np : numpy_version) (v : pyval) : result bool :=
  match v with
  | VBool b => Return b
  | VBody _ => Return true
  | VArray1 a => array_truth np a
  | VArray2 a => array_truth np (concat (rows a))
  | VDict d => Return (negb (bool_decide (d = ∅)))
  end.

(** ** The constructor, [__init__] *)

(** Lines 54 to 60: the loop that fills [bodyindex]. *)
Fixpoint index_bodies (i : nat) (idx : gmap string nat) (args : list pyval)
  : result (gmap string nat) :=
  match args with
  | [] => Return idx
  | body :: rest =>
      n ← getattr_name body;
      if decide (is_Some (idx !! n))
      then Raise (AttributeError (String.append "there are several objects called " n))
      else index_bodies (S i) (<[n := i]> idx) rest
  end.

(** [a[i] = v] for a row of a two-dimensional array: a vector of the
    row's length is copied, a vector of length one is broadcast, any
    other length raises [ValueError]. *)
Definition setitem_row (a : ndarray2 R) (i : nat) (v : list R) : result (ndarray2 R) :=
  if decide (i < shape0 a)%nat then
    if decide (length v = shape1 a)
    then Return (NDArray2 (shape1 a) (<[i := v]> (rows a)))
    else match v with
         | [x] => Return (NDArray2 (shape1 a) (<[i := replicate (shape1 a) x]> (rows a)))
         | _ => Raise ValueError
         end
  else Raise IndexError.

(** [a[i] = x] for an entry of a one-dimensional array. *)
Definition setitem_entry (a : list R) (i : nat) (x : R) : result (list R) :=
  if decide (i < length a)%nat then Return (<[i := x]> a) else Raise IndexError.

(** Lines 65-66 and 69-70: the loops that copy a vector of every body
    into its row. *)
Fixpoint fill_rows (attr : pyval -> result (list R)) (i : nat)
    (a : ndarray2 R) (args : list pyval) : result (ndarray2 R) :=
  match args with
  | [] => Return a
  | body :: rest =>
      v ← attr body;
      a' ← setitem_row a i v;
      fill_rows attr (S i) a' rest
  end.

(** Lines 73-74: the loop that copies the masses. *)
Fixpoint fill_masses (i : nat) (a : list R) (args : list pyval) : result (list R) :=
  match args with
  | [] => Return a
  | body :: rest =>
      m ← getattr_mass body;
      a' ← setitem_entry a i m;
      fill_masses (S i) a' rest
  end.

(** [StaticSystem(not_yet_initialized, *args)]. *)
Definition init (np : numpy_version) (not_yet_initialized : pyval) (args : list pyval)
  : result StaticSystem :=
  t ← truth np not_yet_initialized;
  if (t : bool) then
    idx ← index_bodies 0 ∅ args;
    first ← getitem args 0;
    p0 ← getattr_position first;
    let n := length args in
    let d := length p0 in
    pos ← fill_rows getattr_position 0 (np_zeros2 n d) args;
    vel ← fill_rows getattr_velocity 0 (np_zeros2 n d) args;
    ms ← fill_masses 0 (replicate n 0) args;
    Return (mkSystem idx pos vel ms)
  else
    a0 ← getitem args 0;
    a1 ← getitem args 1;
    a2 ← getitem args 2;
    a3 ← getitem args 3;
    match a0, a1, a2, a3 with
    | VArray2 p, VArray2 v, VArray1 m, VDict idx => Return (mkSystem idx p v m)
    | _, _, _, _ => IllTyped
    end.

(** Construction from bodies: the flag is [True] and the positional
    arguments are the bodies. *)
Definition from_bodies (np : numpy_version) (bodies : list PointMass) : result StaticSystem :=
  init np (VBool true) (VBody <$> bodies).

(** ** The kernel of [step] *)

(** [g.transpose((1, 0, 2))] of a grid whose second axis has length
    [n1]: entry [(a, b)] of the result is entry [(b, a)] of [g]. *)
Definition transpose102 (n1 : nat) (g : list (list (list R))) : list (list (list R)) :=
  map (fun a => map (fun row => nth a row []) g) (seq 0 n1).

(** Line 108: [np.full((n, n, d), all_positions)] repeats the array of
    the positions [n] times. *)
Definition horizontal_grid (s : StaticSystem) : list (list (list R)) :=
  replicate (shape0 (all_positions s)) (rows (all_positions s)).

(** Line 109. *)
Definition vertical_grid (s : StaticSystem) : list (list (list R)) :=
  transpose102 (shape0 (all_positions s)) (horizontal_grid s).

(** Line 110: the connection vector map. *)
Definition convec_map (s : StaticSystem) : list (list (list R)) :=
  zip_with (zip_with (zip_with Rminus)) (vertical_grid s) (horizontal_grid s).

(** Line 113: the distance map, before the guard.  Over exact reals
    a distance is zero only between equal positions; in floats a small
    difference can also underflow to zero; the statements that rely on
    different positions being apart are made under exact arithmetic. *)
Definition dist_map (s : StaticSystem) : list (list R) :=
  map (map (fun v => sqrt (Rsum (map (fun x => x ^ 2) v)))) (convec_map s).

(** Line 116: every zero of the distance map is replaced by one. *)
Definition guard (d : R) : R := if Req_dec_T d 0 then 1 else d.

Definition dist_map_rs (s : StaticSystem) : list (list R) :=
  map (map guard) (dist_map s).

(** Line 120: [np.full((mlen, mlen), all_masses)]. *)
Definition mass_matrix (s : StaticSystem) : list (list R) :=
  replicate (length (all_masses s)) (all_masses s).

(** Line 122: [convec_map * mass_matrix / (dist_map_rs ** 3)], the mass
    and the distance of a pair being broadcast over the coordinates.
    Over exact reals the cube of a guarded distance is never zero; in
    floats it can underflow, which the statements made under exact
    arithmetic leave out. *)
Definition mx (s : StaticSystem) : list (list (list R)) :=
  zip_with (zip_with (fun num d3 => map (fun x => x / d3) num))
    (zip_with (zip_with (fun cv m => map (fun c => c * m) cv))
       (convec_map s) (mass_matrix s))
    (map (map (fun d => d ^ 3)) (dist_map_rs s)).

(** Line 123: [- grav_const * mx.sum(axis=1)]. *)
Definition accelleration (grav_const : R) (s : StaticSystem) : list (list R) :=
  map (fun m => map (fun x => - grav_const * x) (sum_rows (shape1 (all_positions s)) m))
    (mx s).

(** [a + b * dt] on arrays of rows. *)
Definition advance (a : ndarray2 R) (b : list (list R)) (dt : R) : ndarray2 R :=
  NDArray2 (shape1 a)
    (zip_with (zip_with Rplus) (rows a) (map (map (fun x => x * dt)) b)).

(** ** The methods

    A method takes the state of [self] and returns its outcome together
    with the state of [self] after the call. *)

(** [step(dt, grav_const, inplace)]: [None] is returned in place, the
    new system otherwise. *)
Definition step (np : numpy_version) (dt grav_const : R) (inplace : bool)
    (self : StaticSystem) : result (option StaticSystem) * StaticSystem :=
  let acc := accelleration grav_const self in
  if inplace then
    let self1 :=
      mkSystem (bodyindex self)
        (advance (all_positions self) (rows (all_velocities self)) dt)
        (all_velocities self) (all_masses self) in
    let self2 :=
      mkSystem (bodyindex self1) (all_positions self1)
        (advance (all_velocities self1) acc dt) (all_masses self1) in
    (Return None, self2)
  else
    let positions := advance (all_positions self) (rows (all_velocities self)) dt in
    let velocities := advance (all_velocities self) acc dt in
    (new_system ← init np (VArray2 positions)
                     [VArray2 velocities; VArray1 (all_masses self);
                      VDict (bodyindex self)];
     Return (Some new_system),
     self).

(** [centre_of_mass()]. *)
Definition centre_of_mass (self : StaticSystem) : result (list npfloat) * StaticSystem :=
  let total_mass := Rsum (all_masses self) in
  let weighted :=
    sum_rows (shape1 (all_positions self))
      (zip_with (fun row m => map (fun x => x * m) row)
         (rows (all_positions self)) (all_masses self)) in
  let centreofmass := map (fun x => np_divide x total_mass) weighted in
  (Return centreofmass, self).

(** [fix()]: only [all_velocities] is assigned. *)
Definition total_pulse (self : StaticSystem) : list R :=
  sum_rows (shape1 (all_velocities self))
    (zip_with (fun row m => map (fun x => x * m) row)
       (rows (all_velocities self)) (all_masses self)).

Definition fix_ (self : StaticSystem) : result unit * SystemOf npfloat :=
  let total_mass := Rsum (all_masses self) in
  let velocity_centre_of_mass := map (fun x => np_divide x total_mass) (total_pulse self) in
  (Return tt,
   mkSystem (bodyindex self) (all_positions self)
     (NDArray2 (shape1 (all_velocities self))
        (map (fun row => zip_with np_subtract (map Finite row) velocity_centre_of_mass)
           (rows (all_velocities self))))
     (all_masses self)).

(** A system whose velocities are real numbers, seen as a state of the
    wider type. *)
Definition finite_system (s : StaticSystem) : SystemOf npfloat :=
  mkSystem (bodyindex s) (all_positions s)
    (NDArray2 (shape1 (all_velocities s)) (map (map Finite) (rows (all_velocities s))))
    (all_masses s).

(** Calling a dictionary: a [dict] has no [__call__]. *)
Definition call_dict (d : gmap string nat) (arg : string) : result nat :=
  Raise TypeError.

(** [a[i]] on a one-dimensional array and on the rows of an array. *)
Definition getitem_array {A : Type} (a : list A) (i : nat) : result A :=
  match a !! i with
  | Some x => Return x
  | None => Raise IndexError
  end.

(** [get_body(name)]. *)
Definition get_body (n : string) (self : StaticSystem) : result PointMass * StaticSystem :=
  (index ← call_dict (bodyindex self) n;
   m ← getitem_array (all_masses self) index;
   p ← getitem_array (rows (all_positions self)) index;
   v ← getitem_array (rows (all_velocities self)) index;
   Return (mkPointMass n m p v),
   self).

(** ** Closed forms

    The quantities below restate what the kernel computes for one pair
    of slots; the lemmas of [Kernel] relate them to the arrays. *)

(** The Euclidean norm of line 113. *)
Definition norm (v : list R) : R := sqrt (Rsum (map (fun x => x ^ 2) v)).

(** Entry [(i, j)] of [convec_map]: the position of slot i minus the
    position of slot j. *)
Definition connection_vector (pi pj : list R) : list R := zip_with Rminus pi pj.

(** The displacement as the specification words it:
    [position[j] - position[i]]. *)
Definition spec_displacement (pi pj : list R) : list R := zip_with Rminus pj pi.

(** [mass[j] * displacement(i,j) / distance(i,j)^3] with the guarded
    distance, for a given notion of displacement. *)
Definition contribution (disp : list R -> list R -> list R) (pi pj : list R) (mj : R)
  : list R :=
  map (fun c => mj * c / guard (norm (disp pi pj)) ^ 3) (disp pi pj).

(** [-G * sum_j contribution(i,j)] for every slot i, the sum running
    over all slots. *)
Definition pairwise_acceleration (disp : list R -> list R -> list R) (grav_const : R)
    (s : StaticSystem) : list (list R) :=
  map (fun pi =>
         map (fun x => - grav_const * x)
           (sum_rows (shape1 (all_positions s))
              (zip_with (contribution disp pi) (rows (all_positions s)) (all_masses s))))
    (rows (all_positions s)).

(** Line 122 on the distance map of line 113, that is without line 116:
    the contributions as numpy would compute them without the guard. *)
Definition mx_without_guard (s : StaticSystem) : list (list (list npfloat)) :=
  zip_with (zip_with (fun num d3 => map (fun x => np_divide x d3) num))
    (zip_with (zip_with (fun cv m => map (fun c => c * m) cv))
       (convec_map s) (mass_matrix s))
    (map (map (fun d => d ^ 3)) (dist_map s)).

(** Entry [(i, j)] of a grid. *)
Definition entry {A : Type} (g : list (list A)) (i j : nat) : option A :=
  g !! i ≫= fun row => row !! j.

(** The state [fix] leaves when the total mass is not zero, with its
    velocities as real numbers ([Recentring.fix_recentred]). *)
Definition recentred (s : StaticSystem) : StaticSystem :=
  mkSystem (bodyindex s) (all_positions s)
    (NDArray2 (shape1 (all_velocities s))
       (map (fun row =>
               zip_with Rminus row
                 (map (fun x => x / Rsum (all_masses s)) (total_pulse s)))
          (rows (all_velocities s))))
    (all_masses s).

(** The acceleration of a body at [p] among [bodies], as the kernel
    computes it. *)
Definition acc_at (d : nat) (bodies : list PointMass) (grav_const : R) (p : list R)
  : list R :=
  map (fun x => - grav_const * x)
    (sum_rows d (map (fun b' => contribution connection_vector p (position b') (mass b'))
                   bodies)).

(** Coordinate [k] of the contribution of the body [b'] at [p]. *)
Definition pair_term (k : nat) (p : list R) (b' : PointMass) : R :=
  mass b' * (nth k p 0 - nth k (position b') 0)
  / guard (norm (connection_vector p (position b'))) ^ 3.

(** The message of the error raised at line 57. *)
Definition several_objects_called (n : string) : exception :=
  AttributeError (String.append "there are several objects called " n).

(** ** Concrete systems *)

(** The two bodies of the lookup example of the specification and the
    system built from them. *)
Definition body_A : PointMass := mkPointMass "A" 1 [0; 0; 0] [0; 0; 0].
Definition body_B : PointMass := mkPointMass "B" 1 [1; 0; 0] [0; 0; 0].

Definition system_AB : StaticSystem :=
  mkSystem (<["B" := 1%nat]> (<["A" := 0%nat]> ∅))
    (NDArray2 3 [[0; 0; 0]; [1; 0; 0]])
    (NDArray2 3 [[0; 0; 0]; [0; 0; 0]])
    [1; 1].

(** Two distinct bodies at the same position of a line. *)
Definition system_coincident : StaticSystem :=
  mkSystem (<["B" := 1%nat]> (<["A" := 0%nat]> ∅))
    (NDArray2 1 [[0]; [0]]) (NDArray2 1 [[0]; [0]]) [1; 1].

(** One moving body without mass. *)
Definition system_massless : StaticSystem :=
  mkSystem (<["A" := 0%nat]> ∅) (NDArray2 1 [[0]]) (NDArray2 1 [[1]]) [0].

(** ** Further definitions *)

(** A vector [a[i] = v] accepts for a row of length [d]: of that length,
    or of length one. *)
Definition fits (d : nat) (v : list R) : Prop := length v = d \/ length v = 1%nat.

(** The row stored by [a[i] = v] when [v] fits. *)
Definition broadcast (d : nat) (v : list R) : list R :=
  if decide (length v = d) then v
  else match v with
       | [x] => replicate d x
       | _ => v
       end.

(** The system with every position shifted by [t]. *)
Definition translate (t : list R) (s : StaticSystem) : StaticSystem :=
  mkSystem (bodyindex s)
    (NDArray2 (shape1 (all_positions s))
       (map (fun p => zip_with Rplus p t) (rows (all_positions s))))
    (all_velocities s) (all_masses s).

(** The centre of mass as real numbers, for a total mass that is not
    zero ([Advance.centre_of_mass_centre]). *)
Definition centre (s : StaticSystem) : list R :=
  map (fun x => x / Rsum (all_masses s))
    (sum_rows (shape1 (all_positions s))
       (zip_with (fun row m => map (fun x => x * m) row)
          (rows (all_positions s)) (all_masses s))).

(** A body whose position has one coordinate and a body whose position
    has two, beside the three coordinates of [body_A]. *)
Definition body_C : PointMass := mkPointMass "C" 2 [5] [0; 0; 0].
Definition body_D : PointMass := mkPointMass "D" 2 [1; 2] [0; 0; 0].

(** Two moving bodies of different masses in the plane, at distance 5. *)
Definition system_pair : StaticSystem :=
  mkSystem (<["B" := 1%nat]> (<["A" := 0%nat]> ∅))
    (NDArray2 2 [[0; 0]; [3; 4]]) (NDArray2 2 [[1; 0]; [0; 2]]) [2; 3].

(** A body of mass one and a body without mass on a line. *)
Definition system_test_mass : StaticSystem :=
  mkSystem (<["B" := 1%nat]> (<["A" := 0%nat]> ∅))
    (NDArray2 1 [[0]; [1]]) (NDArray2 1 [[0]; [0]]) [1; 0].

(** One body in the plane. *)
Definition system_single : StaticSystem :=
  mkSystem (<["A" := 0%nat]> ∅) (NDArray2 2 [[3; 4]]) (NDArray2 2 [[1; 0]]) [5].

(** * Construction *)

Module Construction.

Lemma index_bodies_distinct (bodies : list PointMass) :
  forall (i : nat) (idx : gmap string nat),
    NoDup (name <$> bodies) ->
    (forall b, b ∈ bodies -> idx !! name b = None) ->
    exists idx',
      index_bodies i idx (VBody <$> bodies) = Return idx' /\
      (forall k b, bodies !! k = Some b -> idx' !! name b = Some (i + k)%nat) /\
      (forall n, n ∉ name <$> bodies -> idx' !! n = idx !! n).
Proof.
  induction bodies as [|b rest IH]; intros i idx Hnd Hfresh.
  - exists idx. split; [reflexivity|]. split; [intros k b Hk; discriminate | done].
  - apply NoDup_cons in Hnd as [Hb Hnd]. cbn.
    destruct (decide (is_Some (idx !! name b))) as [Hin|_].
    + rewrite Hfresh in Hin by left. by destruct Hin.
    + destruct (IH (S i) (<[name b := i]> idx) Hnd) as (idx' & Hrun & Hslots & Hother).
      { intros b' Hb'. rewrite lookup_insert_ne.
        - apply Hfresh. by right.
        - intros Heq. apply Hb. rewrite Heq. by apply list_elem_of_fmap_2. }
      exists idx'. split; [exact Hrun|]. split.
      * intros [|k] b' Hk; simpl in Hk.
        -- injection Hk as <-. rewrite Hother by exact Hb.
           rewrite lookup_insert_eq. f_equal. lia.
        -- rewrite (Hslots k b' Hk). f_equal. lia.
      * intros n Hn. cbn in Hn. apply not_elem_of_cons in Hn as [Hne Hn].
        rewrite (Hother n Hn). by rewrite lookup_insert_ne.
Qed.

Lemma index_bodies_duplicate (bodies : list PointMass) :
  forall (i : nat) (idx : gmap string nat),
    ~ (NoDup (name <$> bodies) /\ forall b, b ∈ bodies -> idx !! name b = None) ->
    exists n,
      n ∈ name <$> bodies /\
      index_bodies i idx (VBody <$> bodies) = Raise (several_objects_called n).
Proof.
  induction bodies as [|b rest IH]; intros i idx Hbad.
  - exfalso. apply Hbad. split; [constructor | intros b Hb; by apply elem_of_nil in Hb].
  - cbn. destruct (decide (is_Some (idx !! name b))) as [Hin|Hfree].
    + exists (name b). split; [left | reflexivity].
    + destruct (IH (S i) (<[name b := i]> idx)) as (n & Hn & Hrun).
      * intros [Hnd Hfresh]. apply Hbad. split.
        -- apply NoDup_cons. split; [|exact Hnd].
           intros Hb. apply list_elem_of_fmap in Hb as (b' & Heq & Hb').
           specialize (Hfresh b' Hb'). rewrite <- Heq, lookup_insert_eq in Hfresh.
           discriminate.
        -- intros b' Hb'. apply elem_of_cons in Hb' as [->|Hb'].
           ++ by apply eq_None_not_Some.
           ++ specialize (Hfresh b' Hb').
              apply lookup_insert_None in Hfresh. tauto.
      * exists n. split; [by right | exact Hrun].
Qed.

Lemma fill_rows_uniform (attr : pyval -> result (list R)) (f : PointMass -> list R)
    (d : nat) (bodies : list PointMass) :
  (forall b, attr (VBody b) = Return (f b)) ->
  Forall (fun b => length (f b) = d) bodies ->
  forall (i : nat) (rs : list (list R)),
    length rs = (i + length bodies)%nat ->
    fill_rows attr i (NDArray2 d rs) (VBody <$> bodies)
    = Return (NDArray2 d (take i rs ++ (f <$> bodies))).
Proof.
  intros Hattr Hlen. induction Hlen as [|b rest Hb Hrest IH]; intros i rs Hrs.
  - cbn. simpl in Hrs. rewrite Nat.add_0_r in Hrs.
    rewrite firstn_all2 by lia. by rewrite app_nil_r.
  - cbn. rewrite Hattr. cbn. unfold setitem_row, shape0. cbn [rows shape1].
    simpl in Hrs.
    destruct (decide (i < length rs)%nat) as [Hi|Hi]; [|lia].
    destruct (decide (length (f b) = d)) as [_|Hne]; [|done].
    cbn. rewrite IH by (rewrite length_insert; lia).
    do 2 f_equal.
    rewrite (take_S_r _ _ (f b)) by (apply list_lookup_insert_eq; exact Hi).
    rewrite take_insert_ge by lia. by rewrite <- app_assoc.
Qed.

Lemma fill_masses_all (bodies : list PointMass) :
  forall (i : nat) (ms : list R),
    length ms = (i + length bodies)%nat ->
    fill_masses i ms (VBody <$> bodies) = Return (take i ms ++ (mass <$> bodies)).
Proof.
  induction bodies as [|b rest IH]; intros i ms Hms.
  - cbn. simpl in Hms. rewrite Nat.add_0_r in Hms.
    rewrite firstn_all2 by lia. by rewrite app_nil_r.
  - cbn. unfold setitem_entry. simpl in Hms.
    destruct (decide (i < length ms)%nat) as [Hi|Hi]; [|lia].
    cbn. rewrite IH by (rewrite length_insert; lia).
    f_equal.
    rewrite (take_S_r _ _ (mass b)) by (apply list_lookup_insert_eq; exact Hi).
    rewrite take_insert_ge by lia. by rewrite <- app_assoc.
Qed.

End Construction.

(** * The kernel in closed form *)

Module Kernel.

Section ListFacts.
Context {A B C D E : Type}.

Lemma zip_with_map_l (f : B -> C -> D) (g : A -> B) (l : list A) (k : list C) :
  zip_with f (map g l) k = zip_with (fun x y => f (g x) y) l k.
Proof. revert k; induction l as [|x l IH]; intros [|y k]; simpl; congruence. Qed.

Lemma zip_with_replicate_r (f : A -> B -> C) (l : list A) (y : B) :
  zip_with f l (replicate (length l) y) = map (fun x => f x y) l.
Proof. induction l as [|x l IH]; simpl; congruence. Qed.

Lemma zip_with_replicate_l (f : A -> B -> C) (x : A) (k : list B) :
  zip_with f (replicate (length k) x) k = map (f x) k.
Proof. induction k as [|y k IH]; simpl; congruence. Qed.

Lemma zip_with_map_map (f : B -> C -> D) (g : A -> B) (h : A -> C) (l : list A) :
  zip_with f (map g l) (map h l) = map (fun x => f (g x) (h x)) l.
Proof. induction l as [|x l IH]; simpl; congruence. Qed.

Lemma zip_with_zip_with_map (F : C -> D -> E) (f : A -> B -> C) (h : A -> D)
    (l : list A) (k : list B) :
  zip_with F (zip_with f l k) (map h l) = zip_with (fun x y => F (f x y) (h x)) l k.
Proof. revert k; induction l as [|x l IH]; intros [|y k]; simpl; try congruence. Qed.

Lemma zip_with_ext_all (f g : A -> B -> C) (l : list A) (k : list B) :
  (forall x y, f x y = g x y) -> zip_with f l k = zip_with g l k.
Proof. intros H. revert k; induction l as [|x l IH]; intros [|y k]; simpl; try congruence. Qed.

End ListFacts.

Lemma lookup_map {A B : Type} (f : A -> B) (l : list A) (i : nat) :
  map f l !! i = f <$> l !! i.
Proof. revert i; induction l as [|x l IH]; intros [|i]; simpl; auto. Qed.

Lemma map_nth_seq {A : Type} (d : A) (l : list A) :
  map (fun i => nth i l d) (seq 0 (length l)) = l.
Proof.
  induction l as [|x l IH]; [reflexivity|].
  simpl. f_equal. rewrite <- seq_shift, map_map. exact IH.
Qed.

Lemma nth_replicate_rows {A : Type} (n a : nat) (l : list A) (d : A) :
  map (fun row => nth a row d) (replicate n l) = replicate n (nth a l d).
Proof. induction n as [|n IH]; simpl; congruence. Qed.

Lemma transpose102_replicate (n : nat) (ps : list (list R)) :
  transpose102 (length ps) (replicate n ps) = map (fun p => replicate n p) ps.
Proof.
  unfold transpose102.
  rewrite (map_ext _ _ (fun a => nth_replicate_rows n a ps [])).
  rewrite <- (map_map (fun a => nth a ps []) (replicate n)).
  by rewrite map_nth_seq.
Qed.

Lemma vertical_grid_rows (s : StaticSystem) :
  vertical_grid s
  = map (fun p => replicate (shape0 (all_positions s)) p) (rows (all_positions s)).
Proof. apply transpose102_replicate. Qed.

Lemma convec_map_rows (s : StaticSystem) :
  convec_map s
  = map (fun pi => map (fun pj => connection_vector pi pj) (rows (all_positions s)))
      (rows (all_positions s)).
Proof.
  unfold convec_map. rewrite vertical_grid_rows. unfold horizontal_grid, shape0.
  rewrite zip_with_map_l, zip_with_replicate_r.
  apply map_ext. intros p. apply zip_with_replicate_l.
Qed.

Lemma dist_map_rows (s : StaticSystem) :
  dist_map s
  = map (fun pi => map (fun pj => norm (connection_vector pi pj)) (rows (all_positions s)))
      (rows (all_positions s)).
Proof.
  unfold dist_map. rewrite convec_map_rows, map_map.
  apply map_ext. intros p. by rewrite map_map.
Qed.

Lemma mx_rows (s : StaticSystem) :
  length (all_masses s) = shape0 (all_positions s) ->
  mx s
  = map (fun pi => zip_with (contribution connection_vector pi)
                     (rows (all_positions s)) (all_masses s))
      (rows (all_positions s)).
Proof.
  intros Hm. unfold mx, dist_map_rs, mass_matrix.
  rewrite dist_map_rows, convec_map_rows, Hm. unfold shape0.
  rewrite zip_with_map_l, zip_with_replicate_r, !map_map.
  rewrite zip_with_map_map.
  apply map_ext. intros pi.
  rewrite zip_with_map_l, !map_map, zip_with_zip_with_map.
  apply zip_with_ext_all. intros pj m.
  unfold contribution. rewrite map_map. apply map_ext. intros c.
  unfold Rdiv. ring.
Qed.

Lemma mx_without_guard_rows (s : StaticSystem) :
  length (all_masses s) = shape0 (all_positions s) ->
  mx_without_guard s
  = map (fun pi =>
           zip_with (fun pj m =>
                       map (fun c => np_divide (c * m)
                                       (norm (connection_vector pi pj) ^ 3))
                         (connection_vector pi pj))
             (rows (all_positions s)) (all_masses s))
      (rows (all_positions s)).
Proof.
  intros Hm. unfold mx_without_guard, mass_matrix.
  rewrite dist_map_rows, convec_map_rows, Hm. unfold shape0.
  rewrite zip_with_map_l, zip_with_replicate_r, !map_map.
  rewrite zip_with_map_map.
  apply map_ext. intros pi.
  rewrite zip_with_map_l, !map_map, zip_with_zip_with_map.
  apply zip_with_ext_all. intros pj m.
  by rewrite map_map.
Qed.

Lemma accelleration_rows (grav_const : R) (s : StaticSystem) :
  length (all_masses s) = shape0 (all_positions s) ->
  accelleration grav_const s = pairwise_acceleration connection_vector grav_const s.
Proof.
  intros Hm. unfold accelleration, pairwise_acceleration.
  rewrite (mx_rows s Hm), map_map. reflexivity.
Qed.

End Kernel.

(** * Sums *)

Module Sums.

Lemma Rsum_map_plus {A : Type} (f g : A -> R) (l : list A) :
  Rsum (map (fun x => f x + g x) l) = Rsum (map f l) + Rsum (map g l).
Proof. induction l as [|x l IH]; simpl; [|rewrite IH]; ring. Qed.

Lemma Rsum_map_scale {A : Type} (c : R) (f : A -> R) (l : list A) :
  Rsum (map (fun x => c * f x) l) = c * Rsum (map f l).
Proof. induction l as [|x l IH]; simpl; [|rewrite IH]; ring. Qed.

Lemma Rsum_map_zero {A : Type} (l : list A) : Rsum (map (fun _ => 0) l) = 0.
Proof. induction l as [|x l IH]; simpl; [|rewrite IH]; ring. Qed.

Lemma Rsum_swap {A B : Type} (f : A -> B -> R) (l : list A) (k : list B) :
  Rsum (map (fun x => Rsum (map (f x) k)) l)
  = Rsum (map (fun y => Rsum (map (fun x => f x y) l)) k).
Proof.
  induction l as [|x l IH]; simpl.
  - by rewrite Rsum_map_zero.
  - by rewrite IH, Rsum_map_plus.
Qed.

(** A double sum of an antisymmetric term vanishes. *)
Lemma Rsum_antisymmetric {A : Type} (f : A -> A -> R) (l : list A) :
  (forall x y, f x y = - f y x) ->
  Rsum (map (fun x => Rsum (map (f x) l)) l) = 0.
Proof.
  intros Hanti.
  assert (H : Rsum (map (fun x => Rsum (map (f x) l)) l)
              = - Rsum (map (fun x => Rsum (map (f x) l)) l)).
  { rewrite Rsum_swap at 1.
    rewrite <- (Rmult_1_l (Rsum (map (fun x => Rsum (map (f x) l)) l))) at 1.
    rewrite Ropp_mult_distr_l, <- Rsum_map_scale.
    f_equal. apply map_ext. intros y.
    rewrite <- Rsum_map_scale. f_equal. apply map_ext. intros x.
    rewrite (Hanti x y). ring. }
  lra.
Qed.

Lemma nth_zip_with_Rplus (u v : list R) (k : nat) :
  length u = length v ->
  nth k (zip_with Rplus u v) 0 = nth k u 0 + nth k v 0.
Proof.
  revert v k; induction u as [|x u IH]; intros [|y v] k Hlen; try discriminate.
  - destruct k; simpl; ring.
  - destruct k; simpl; [reflexivity|]. apply IH. by injection Hlen.
Qed.

Lemma nth_zip_with_Rminus (u v : list R) (k : nat) :
  length u = length v ->
  nth k (zip_with Rminus u v) 0 = nth k u 0 - nth k v 0.
Proof.
  revert v k; induction u as [|x u IH]; intros [|y v] k Hlen; try discriminate.
  - destruct k; simpl; ring.
  - destruct k; simpl; [reflexivity|]. apply IH. by injection Hlen.
Qed.

Lemma nth_map_linear (f : R -> R) (l : list R) (k : nat) :
  f 0 = 0 -> nth k (map f l) 0 = f (nth k l 0).
Proof. intros H0. rewrite <- H0 at 1. apply map_nth. Qed.

Lemma nth_replicate_zero (d k : nat) : nth k (replicate d 0) 0 = 0.
Proof. revert k; induction d as [|d IH]; intros [|k]; simpl; auto. Qed.

Lemma length_sum_rows (d : nat) (vs : list (list R)) :
  Forall (fun r => length r = d) vs -> length (sum_rows d vs) = d.
Proof.
  induction 1 as [|v vs Hv Hvs IH]; simpl.
  - apply length_replicate.
  - rewrite length_zip_with, IH, Hv. lia.
Qed.

Lemma nth_sum_rows (d : nat) (vs : list (list R)) (k : nat) :
  Forall (fun r => length r = d) vs ->
  nth k (sum_rows d vs) 0 = Rsum (map (fun v => nth k v 0) vs).
Proof.
  induction 1 as [|v vs Hv Hvs IH]; simpl.
  - apply nth_replicate_zero.
  - rewrite nth_zip_with_Rplus, IH; [reflexivity|].
    by rewrite length_sum_rows.
Qed.

End Sums.

(** * Systems as lists of bodies *)

Module Bodies.
Import Kernel Sums.

(** The rows of a well-formed system are the bodies of a list. *)
Lemma bodies_of_rows (ps vs : list (list R)) :
  forall ms : list R,
    length vs = length ps -> length ms = length ps ->
    exists bodies : list PointMass,
      ps = map position bodies /\ vs = map velocity bodies /\ ms = map mass bodies.
Proof.
  revert vs; induction ps as [|p ps IH]; intros [|v vs] [|m ms] Hv Hm;
    try discriminate.
  - exists []. auto.
  - destruct (IH vs ms) as (bodies & -> & -> & ->); [by injection Hv | by injection Hm |].
    exists (mkPointMass "" m p v :: bodies). auto.
Qed.

Section WithBodies.
Variable d : nat.
Variable bodies : list PointMass.
Hypothesis Hpos : Forall (fun b => length (position b) = d) bodies.

Lemma nth_weighted_sum (f : PointMass -> list R) (k : nat) :
  Forall (fun b => length (f b) = d) bodies ->
  nth k (sum_rows d (zip_with (fun row m => map (fun x => x * m) row)
                       (map f bodies) (map mass bodies))) 0
  = Rsum (map (fun b => nth k (f b) 0 * mass b) bodies).
Proof.
  intros Hf. rewrite zip_with_map_map, nth_sum_rows.
  - rewrite map_map. f_equal. apply map_ext. intros b.
    apply (nth_map_linear (fun x => x * mass b)). ring.
  - apply Forall_map. eapply Forall_impl; [exact Hf|].
    intros b Hb. simpl. by rewrite length_map.
Qed.

Lemma length_weighted_sum (f : PointMass -> list R) :
  Forall (fun b => length (f b) = d) bodies ->
  length (sum_rows d (zip_with (fun row m => map (fun x => x * m) row)
                        (map f bodies) (map mass bodies))) = d.
Proof.
  intros Hf. rewrite zip_with_map_map. apply length_sum_rows.
  apply Forall_map. eapply Forall_impl; [exact Hf|].
  intros b Hb. simpl. by rewrite length_map.
Qed.

Lemma contributions_length (p : list R) :
  length p = d ->
  Forall (fun r => length r = d)
    (map (fun b' => contribution connection_vector p (position b') (mass b')) bodies).
Proof.
  intros Hp. apply Forall_map. eapply Forall_impl; [exact Hpos|].
  intros b Hb. simpl in *. unfold contribution, connection_vector.
  rewrite length_map, length_zip_with. lia.
Qed.

Lemma length_acc_at (grav_const : R) (p : list R) :
  length p = d -> length (acc_at d bodies grav_const p) = d.
Proof.
  intros Hp. unfold acc_at. rewrite length_map.
  apply length_sum_rows, contributions_length, Hp.
Qed.

Lemma nth_acc_at (grav_const : R) (p : list R) (k : nat) :
  length p = d ->
  nth k (acc_at d bodies grav_const p) 0
  = - grav_const * Rsum (map (pair_term k p) bodies).
Proof.
  intros Hp. unfold acc_at.
  rewrite (nth_map_linear (fun x => - grav_const * x)) by ring.
  rewrite nth_sum_rows by (apply contributions_length, Hp).
  rewrite map_map. do 2 f_equal.
  apply map_ext_Forall. eapply Forall_impl; [exact Hpos|].
  intros b Hb. simpl in *. unfold contribution, pair_term.
  set (g := guard _ ^ 3).
  rewrite (nth_map_linear (fun c => mass b * c / g)) by (unfold Rdiv; ring).
  unfold connection_vector. rewrite nth_zip_with_Rminus by lia. reflexivity.
Qed.

End WithBodies.

Lemma norm_symmetric (u v : list R) :
  norm (zip_with Rminus u v) = norm (zip_with Rminus v u).
Proof.
  unfold norm. do 2 f_equal.
  revert v; induction u as [|x u IH]; intros [|y v]; simpl; try reflexivity.
  rewrite IH. f_equal. ring.
Qed.

(** The mass-weighted terms of two bodies are opposite. *)
Lemma pair_term_antisymmetric (k : nat) (b b' : PointMass) :
  mass b * pair_term k (position b) b' = - (mass b' * pair_term k (position b') b).
Proof.
  unfold pair_term, connection_vector.
  rewrite (norm_symmetric (position b') (position b)).
  unfold Rdiv. ring.
Qed.

Lemma weighted_accelerations_cancel (d : nat) (bodies : list PointMass)
    (grav_const : R) (k : nat) :
  Forall (fun b => length (position b) = d) bodies ->
  Rsum (map (fun b => nth k (acc_at d bodies grav_const (position b)) 0 * mass b) bodies)
  = 0.
Proof.
  intros Hpos.
  rewrite (map_ext_Forall _
             (fun b => - grav_const *
                       Rsum (map (fun b' => mass b * pair_term k (position b) b') bodies))).
  - rewrite Rsum_map_scale, Rsum_antisymmetric; [ring|].
    intros b b'. apply pair_term_antisymmetric.
  - eapply Forall_impl; [exact Hpos|]. intros b Hb. simpl in *.
    rewrite (nth_acc_at d bodies Hpos grav_const (position b) k Hb).
    rewrite Rsum_map_scale. ring.
Qed.

End Bodies.

(** * Momentum *)

Module Momentum.
Import Kernel Sums Bodies.

Lemma accelleration_bodies (grav_const : R) (idx : gmap string nat) (d : nat)
    (bodies : list PointMass) (vel : ndarray2 R) :
  accelleration grav_const
    (mkSystem idx (NDArray2 d (map position bodies)) vel (map mass bodies))
  = map (fun b => acc_at d bodies grav_const (position b)) bodies.
Proof.
  rewrite accelleration_rows by (unfold shape0; simpl; by rewrite !length_map).
  unfold pairwise_acceleration. simpl. rewrite map_map.
  apply map_ext. intros b. unfold acc_at. by rewrite zip_with_map_map.
Qed.

(** A well-formed system is the system of a list of bodies. *)
Lemma wf_system_bodies (s : StaticSystem) :
  wf_system s ->
  exists (d : nat) (bodies : list PointMass),
    s = mkSystem (bodyindex s) (NDArray2 d (map position bodies))
          (NDArray2 d (map velocity bodies)) (map mass bodies) /\
    Forall (fun b => length (position b) = d) bodies /\
    Forall (fun b => length (velocity b) = d) bodies.
Proof.
  destruct s as [idx [d ps] [d' vs] ms].
  unfold wf_system, wf_array, shape0. simpl.
  intros (Hp & Hv & -> & Hn & Hm).
  destruct (bodies_of_rows ps vs ms Hn Hm) as (bodies & -> & -> & ->).
  exists d, bodies. split; [reflexivity|].
  split; [exact (proj1 (Forall_map _ _ _) Hp) | exact (proj1 (Forall_map _ _ _) Hv)].
Qed.

Lemma total_pulse_after_step (np : numpy_version) (dt grav_const : R)
    (idx : gmap string nat) (d : nat) (bodies : list PointMass) :
  Forall (fun b => length (position b) = d) bodies ->
  Forall (fun b => length (velocity b) = d) bodies ->
  let s := mkSystem idx (NDArray2 d (map position bodies))
             (NDArray2 d (map velocity bodies)) (map mass bodies) in
  total_pulse (snd (step np dt grav_const true s)) = total_pulse s.
Proof.
  intros Hpos Hvel s. unfold s, step, total_pulse.
  cbn [snd all_velocities all_positions all_masses bodyindex advance shape1 rows].
  rewrite accelleration_bodies, !map_map, zip_with_map_map.
  set (f := fun b => zip_with Rplus (velocity b)
                       (map (fun x => x * dt) (acc_at d bodies grav_const (position b)))).
  assert (Hf : Forall (fun b => length (f b) = d) bodies).
  { apply Forall_forall. intros b Hb. unfold f.
    rewrite Forall_forall in Hpos, Hvel.
    rewrite length_zip_with, length_map, (length_acc_at d bodies); auto.
    - rewrite (Hvel b Hb). lia.
    - apply Forall_forall. exact Hpos. }
  apply (nth_ext _ _ 0 0).
  - by rewrite !length_weighted_sum.
  - intros k _. rewrite !nth_weighted_sum by assumption.
    rewrite (map_ext_Forall _
               (fun b => nth k (velocity b) 0 * mass b
                         + dt * (nth k (acc_at d bodies grav_const (position b)) 0 * mass b))).
    + rewrite Rsum_map_plus, Rsum_map_scale, weighted_accelerations_cancel by assumption.
      ring.
    + apply Forall_forall. intros b Hb. unfold f.
      rewrite Forall_forall in Hpos, Hvel.
      rewrite nth_zip_with_Rplus.
      * rewrite (nth_map_linear (fun x => x * dt)) by ring. ring.
      * rewrite length_map, (length_acc_at d bodies); auto.
        apply Forall_forall. exact Hpos.
Qed.

End Momentum.

(** * Recentring *)

Module Recentring.
Import Kernel Sums Bodies Momentum.

Lemma np_divide_nonzero (x y : R) : y <> 0 -> np_divide x y = Finite (x / y).
Proof. intros Hy. unfold np_divide. by destruct (Req_dec_T y 0). Qed.

Lemma np_divide_zero (x : R) : np_divide x 0 = NonFinite.
Proof. unfold np_divide. by destruct (Req_dec_T 0 0). Qed.

Lemma np_subtract_finite (u v : list R) :
  zip_with np_subtract (map Finite u) (map Finite v) = map Finite (zip_with Rminus u v).
Proof. revert v; induction u as [|x u IH]; intros [|y v]; simpl; congruence. Qed.

(** With a total mass that is not zero [fix] stays within the real
    numbers and yields [recentred]. *)
Lemma fix_recentred (s : StaticSystem) :
  Rsum (all_masses s) <> 0 ->
  fix_ s = (Return tt, finite_system (recentred s)).
Proof.
  intros HM. unfold fix_, finite_system, recentred. simpl.
  do 3 f_equal. rewrite map_map.
  rewrite (map_ext _ _ (fun x => np_divide_nonzero x _ HM)).
  rewrite <- (map_map (fun x => x / Rsum (all_masses s)) Finite).
  apply map_ext. intros row. apply np_subtract_finite.
Qed.

Lemma zip_with_Rminus_zero (d : nat) (row : list R) :
  length row = d -> zip_with Rminus row (replicate d 0) = row.
Proof.
  revert d; induction row as [|x row IH]; intros [|d] Hlen; try discriminate.
  - reflexivity.
  - simpl. rewrite IH by (by injection Hlen). f_equal. ring.
Qed.

Lemma total_pulse_recentred (idx : gmap string nat) (pos : ndarray2 R) (d : nat)
    (bodies : list PointMass) :
  Forall (fun b => length (velocity b) = d) bodies ->
  Rsum (map mass bodies) <> 0 ->
  total_pulse (recentred (mkSystem idx pos (NDArray2 d (map velocity bodies))
                            (map mass bodies)))
  = replicate d 0.
Proof.
  intros Hvel HM. unfold recentred.
  cbn [all_velocities all_masses all_positions bodyindex shape1 rows].
  set (c := map (fun x => x / Rsum (map mass bodies)) (total_pulse _)).
  assert (Hc : length c = d).
  { unfold c, total_pulse. simpl. rewrite length_map.
    by apply length_weighted_sum. }
  assert (Hck : forall k, nth k c 0 * Rsum (map mass bodies)
                          = Rsum (map (fun b => nth k (velocity b) 0 * mass b) bodies)).
  { intros k. unfold c, total_pulse. simpl.
    rewrite (nth_map_linear (fun x => x / Rsum (map mass bodies)))
      by (unfold Rdiv; ring).
    rewrite nth_weighted_sum by assumption. field. exact HM. }
  unfold total_pulse. cbn [all_velocities all_masses shape1 rows].
  rewrite map_map.
  assert (Hf : Forall (fun b => length (zip_with Rminus (velocity b) c) = d) bodies).
  { eapply Forall_impl; [exact Hvel|]. intros b Hb. simpl in *.
    rewrite length_zip_with. lia. }
  apply (nth_ext _ _ 0 0).
  - rewrite (length_weighted_sum d bodies (fun b => zip_with Rminus (velocity b) c) Hf).
    by rewrite length_replicate.
  - intros k _.
    rewrite (nth_weighted_sum d bodies (fun b => zip_with Rminus (velocity b) c) k Hf).
    rewrite nth_replicate_zero.
    rewrite (map_ext_Forall _
               (fun b => nth k (velocity b) 0 * mass b + - nth k c 0 * mass b)).
    + rewrite Rsum_map_plus, Rsum_map_scale, <- Hck.
      replace (map (fun x => mass x) bodies) with (map mass bodies) by reflexivity.
      ring.
    + eapply Forall_impl; [exact Hvel|]. intros b Hb. simpl in *.
      rewrite nth_zip_with_Rminus by lia. ring.
Qed.

Lemma total_pulse_recentred_wf (s : StaticSystem) :
  wf_system s -> Rsum (all_masses s) <> 0 ->
  total_pulse (recentred s) = replicate (shape1 (all_velocities s)) 0.
Proof.
  intros Hwf HM.
  destruct (wf_system_bodies s Hwf) as (d & bodies & Hs & Hpos & Hvel).
  rewrite Hs in HM |- *. simpl in HM.
  by apply total_pulse_recentred.
Qed.

Lemma map_div_zero (d : nat) (m : R) :
  map (fun x => x / m) (replicate d 0) = replicate d 0.
Proof.
  induction d as [|d IH]; simpl; [reflexivity|].
  rewrite IH. f_equal. unfold Rdiv. ring.
Qed.

Lemma recentred_idempotent (s : StaticSystem) :
  wf_system s -> Rsum (all_masses s) <> 0 ->
  recentred (recentred s) = recentred s.
Proof.
  intros Hwf HM.
  destruct (wf_system_bodies s Hwf) as (d & bodies & Hs & Hpos & Hvel).
  rewrite Hs in HM |- *. simpl in HM.
  unfold recentred at 1.
  rewrite total_pulse_recentred by assumption.
  unfold recentred.
  cbn [all_velocities all_masses all_positions bodyindex shape1 rows].
  rewrite map_div_zero. do 2 f_equal.
  rewrite !map_map. apply map_ext_Forall.
  eapply Forall_impl; [exact Hvel|]. intros b Hb. simpl in *.
  apply zip_with_Rminus_zero.
  unfold total_pulse. cbn [all_velocities all_masses shape1 rows].
  rewrite length_zip_with, length_map.
  rewrite length_weighted_sum by assumption. lia.
Qed.

End Recentring.

(** * Distances *)

Module Norm.
Import Kernel Sums Bodies.

Lemma Rsum_cons (x : R) (l : list R) : Rsum (x :: l) = x + Rsum l.
Proof. reflexivity. Qed.

Lemma Rsum_squares_nonneg (v : list R) : 0 <= Rsum (map (fun x => x ^ 2) v).
Proof.
  induction v as [|x v IH]; cbn [map]; [unfold Rsum; simpl; lra|].
  rewrite Rsum_cons. pose proof (pow2_ge_0 x) as Hx. lra.
Qed.

Lemma norm_nonneg (v : list R) : 0 <= norm v.
Proof. apply sqrt_pos. Qed.

Lemma norm_zero_iff (v : list R) : norm v = 0 <-> Forall (fun x => x = 0) v.
Proof.
  unfold norm. split.
  - intros H. apply sqrt_eq_0 in H; [|apply Rsum_squares_nonneg].
    induction v as [|x v IH]; [constructor|].
    cbn [map] in H. rewrite Rsum_cons in H.
    pose proof (Rsum_squares_nonneg v) as Hv.
    pose proof (pow2_ge_0 x) as Hx.
    assert (Hx0 : x ^ 2 = 0) by lra.
    constructor.
    + simpl in Hx0. apply Rmult_integral in Hx0 as [H0|H0]; [exact H0|].
      apply Rmult_integral in H0 as [H0|H0]; [exact H0|lra].
    + apply IH. lra.
  - intros H. replace (Rsum (map (fun x => x ^ 2) v)) with 0; [apply sqrt_0|].
    induction H as [|x v Hx Hv IH]; [reflexivity|].
    cbn [map]. rewrite Rsum_cons, <- IH, Hx. ring.
Qed.

Lemma difference_zero_iff (u v : list R) :
  length u = length v ->
  Forall (fun x => x = 0) (zip_with Rminus u v) <-> u = v.
Proof.
  revert v; induction u as [|x u IH]; intros [|y v] Hlen; try discriminate.
  - split; [reflexivity | constructor].
  - simpl. injection Hlen as Hlen. split.
    + intros H. apply Forall_cons in H as [Hxy H].
      f_equal; [lra | by apply IH].
    + intros H. injection H as -> ->. constructor; [ring | by apply IH].
Qed.

(** The distance of two positions vanishes exactly when they coincide. *)
Lemma distance_zero_iff (u v : list R) :
  length u = length v -> norm (connection_vector u v) = 0 <-> u = v.
Proof.
  intros Hlen. unfold connection_vector.
  rewrite norm_zero_iff. by apply difference_zero_iff.
Qed.

Lemma guard_zero : guard 0 = 1.
Proof. unfold guard. by destruct (Req_dec_T 0 0). Qed.

Lemma guard_nonzero (d : R) : d <> 0 -> guard d = d.
Proof. intros Hd. unfold guard. by destruct (Req_dec_T d 0). Qed.

Lemma guard_never_zero (d : R) : guard d <> 0.
Proof. unfold guard. destruct (Req_dec_T d 0); [lra | assumption]. Qed.

Lemma norm_scale (c : R) (v : list R) :
  0 <= c -> norm (map (fun x => c * x) v) = c * norm v.
Proof.
  intros Hc. unfold norm. rewrite map_map.
  rewrite (map_ext _ (fun x => c ^ 2 * x ^ 2)) by (intros x; ring).
  rewrite Rsum_map_scale, sqrt_mult; [|apply pow2_ge_0|apply Rsum_squares_nonneg].
  f_equal. rewrite <- (Rsqr_pow2 c). by apply sqrt_Rsqr.
Qed.

End Norm.

(** * Two bodies *)

Module TwoBodies.
Import Kernel Sums Bodies Norm.

Lemma first_row (grav_const m1 m2 g d : R) (p1 : list R) :
  d <> 0 -> g <> 0 ->
  forall (p2 : list R) (n : nat),
    length p1 = n -> length p2 = n ->
    map (fun x => - grav_const * x)
      (zip_with Rplus (map (fun c => m1 * c / g) (zip_with Rminus p1 p1))
         (zip_with Rplus (map (fun c => m2 * c / d ^ 3) (zip_with Rminus p1 p2))
            (replicate n 0)))
    = map (fun c => grav_const * m2 / d ^ 2 * c)
        (map (fun c => c / d) (zip_with Rminus p2 p1)).
Proof.
  intros Hd Hg. induction p1 as [|x p1 IH]; intros [|y p2] [|n] H1 H2; try discriminate.
  - reflexivity.
  - cbn [map zip_with replicate]. f_equal.
    + field. auto.
    + apply IH; simpl in H1, H2; lia.
Qed.

Lemma second_row (grav_const m1 m2 g d : R) (p1 : list R) :
  d <> 0 -> g <> 0 ->
  forall (p2 : list R) (n : nat),
    length p1 = n -> length p2 = n ->
    map (fun x => - grav_const * x)
      (zip_with Rplus (map (fun c => m1 * c / d ^ 3) (zip_with Rminus p2 p1))
         (zip_with Rplus (map (fun c => m2 * c / g) (zip_with Rminus p2 p2))
            (replicate n 0)))
    = map (fun c => - (grav_const * m1 / d ^ 2) * c)
        (map (fun c => c / d) (zip_with Rminus p2 p1)).
Proof.
  intros Hd Hg. induction p1 as [|x p1 IH]; intros [|y p2] [|n] H1 H2; try discriminate.
  - reflexivity.
  - cbn [map zip_with replicate]. f_equal.
    + field. auto.
    + apply IH; simpl in H1, H2; lia.
Qed.

Lemma norm_unit (v : list R) :
  0 < norm v -> norm (map (fun c => c / norm v) v) = 1.
Proof.
  intros Hv.
  rewrite (map_ext _ (fun c => / norm v * c)) by (intros c; unfold Rdiv; ring).
  rewrite norm_scale.
  - field. lra.
  - left. by apply Rinv_0_lt_compat.
Qed.

End TwoBodies.

(** * Pairs of slots *)

Module Pairs.
Import Kernel Sums Bodies Norm Recentring.

Section Entries.
Variable s : StaticSystem.
Variables i j : nat.
Variables pi pj : list R.
Variable mj : R.
Hypothesis Hm : length (all_masses s) = shape0 (all_positions s).
Hypothesis Hi : rows (all_positions s) !! i = Some pi.
Hypothesis Hj : rows (all_positions s) !! j = Some pj.
Hypothesis Hmj : all_masses s !! j = Some mj.

Lemma entry_dist_map : entry (dist_map s) i j = Some (norm (connection_vector pi pj)).
Proof.
  unfold entry. rewrite dist_map_rows, lookup_map, Hi. simpl.
  by rewrite lookup_map, Hj.
Qed.

Lemma entry_dist_map_rs :
  entry (dist_map_rs s) i j = Some (guard (norm (connection_vector pi pj))).
Proof.
  unfold entry, dist_map_rs. rewrite dist_map_rows, !lookup_map, Hi. simpl.
  by rewrite !lookup_map, Hj.
Qed.

Lemma entry_mx : entry (mx s) i j = Some (contribution connection_vector pi pj mj).
Proof.
  unfold entry. rewrite (mx_rows s Hm), lookup_map, Hi. simpl.
  by rewrite lookup_zip_with, Hj, Hmj.
Qed.

Lemma entry_mx_without_guard :
  entry (mx_without_guard s) i j
  = Some (map (fun c => np_divide (c * mj) (norm (connection_vector pi pj) ^ 3))
            (connection_vector pi pj)).
Proof.
  unfold entry. rewrite (mx_without_guard_rows s Hm), lookup_map, Hi. simpl.
  by rewrite lookup_zip_with, Hj, Hmj.
Qed.

End Entries.

Lemma contribution_apart (pi pj : list R) (mj : R) :
  norm (connection_vector pi pj) <> 0 ->
  map (fun c => np_divide (c * mj) (norm (connection_vector pi pj) ^ 3))
    (connection_vector pi pj)
  = map Finite (contribution connection_vector pi pj mj).
Proof.
  intros Hd. unfold contribution. rewrite map_map, (guard_nonzero _ Hd).
  apply map_ext. intros c.
  rewrite np_divide_nonzero by (by apply pow_nonzero).
  f_equal. unfold Rdiv. ring.
Qed.

Lemma contribution_coincident (p : list R) (mj : R) :
  contribution connection_vector p p mj = replicate (length p) 0.
Proof.
  unfold contribution. generalize (guard (norm (connection_vector p p)) ^ 3).
  intros g. unfold connection_vector.
  induction p as [|x p IH]; [reflexivity|].
  cbn [zip_with map replicate length]. rewrite IH. f_equal.
  unfold Rdiv. ring.
Qed.

End Pairs.

(** * Facts on the concrete systems *)

Module Examples.
Import Kernel Sums Bodies Norm Recentring.

Lemma wf_system_AB : wf_system system_AB.
Proof.
  unfold wf_system, wf_array, shape0. simpl.
  repeat split; repeat constructor.
Defined.

Lemma wf_system_coincident : wf_system system_coincident.
Proof.
  unfold wf_system, wf_array, shape0. simpl.
  repeat split; repeat constructor.
Defined.

Lemma wf_system_massless : wf_system system_massless.
Proof.
  unfold wf_system, wf_array, shape0. simpl.
  repeat split; repeat constructor.
Defined.

Lemma positions_AB_apart : [0; 0; 0] <> [1; 0; 0].
Proof. intros H. injection H as H. lra. Defined.

Lemma norm_unit_x (a : R) : a ^ 2 = 1 -> norm [a; 0; 0] = 1.
Proof.
  intros Ha. unfold norm. cbn [map]. rewrite !Rsum_cons.
  replace (a ^ 2 + (0 ^ 2 + (0 ^ 2 + Rsum []))) with 1.
  - apply sqrt_1.
  - rewrite Ha. unfold Rsum. simpl. ring.
Qed.

Lemma norm_origin : norm [0; 0; 0] = 0.
Proof. apply norm_zero_iff. repeat constructor. Qed.

Lemma guard_one : guard 1 = 1.
Proof. apply guard_nonzero. lra. Qed.

(** What [step] computes on the bodies A and B with a unit constant:
    A is accelerated towards B and B towards A. *)
Lemma accelleration_AB : accelleration 1 system_AB = [[1; 0; 0]; [-1; 0; 0]].
Proof.
  rewrite accelleration_rows by reflexivity.
  unfold pairwise_acceleration, contribution, connection_vector.
  cbn [system_AB all_positions all_masses rows shape1 map zip_with sum_rows foldr
       replicate].
  replace (0 - 0) with 0 by ring. replace (1 - 1) with 0 by ring.
  rewrite norm_origin, guard_zero.
  rewrite (norm_unit_x (0 - 1)) by ring. rewrite (norm_unit_x (1 - 0)) by ring.
  rewrite guard_one.
  repeat f_equal; field.
Qed.

(** What the formula of the specification gives there. *)
Lemma spec_acceleration_AB :
  pairwise_acceleration spec_displacement 1 system_AB = [[-1; 0; 0]; [1; 0; 0]].
Proof.
  unfold pairwise_acceleration, contribution, spec_displacement.
  cbn [system_AB all_positions all_masses rows shape1 map zip_with sum_rows foldr
       replicate].
  replace (0 - 0) with 0 by ring. replace (1 - 1) with 0 by ring.
  rewrite norm_origin, guard_zero.
  rewrite (norm_unit_x (0 - 1)) by ring. rewrite (norm_unit_x (1 - 0)) by ring.
  rewrite guard_one.
  repeat f_equal; field.
Qed.

(** The pair of the two bodies of [system_coincident]: its distance is
    zero, the guard makes it one, and the contribution is 0/0 without
    the guard and zero with it. *)
Lemma coincident_pair_entries :
  entry (dist_map system_coincident) 0 1 = Some 0 /\
  entry (dist_map_rs system_coincident) 0 1 = Some 1 /\
  entry (mx_without_guard system_coincident) 0 1 = Some [NonFinite] /\
  entry (mx system_coincident) 0 1 = Some [0].
Proof.
  assert (Hn : norm (connection_vector [0] [0]) = 0).
  { by apply distance_zero_iff. }
  split; [|split; [|split]].
  - rewrite (Pairs.entry_dist_map system_coincident 0 1 [0] [0]) by reflexivity.
    by rewrite Hn.
  - rewrite (Pairs.entry_dist_map_rs system_coincident 0 1 [0] [0]) by reflexivity.
    by rewrite Hn, guard_zero.
  - rewrite (Pairs.entry_mx_without_guard system_coincident 0 1 [0] [0] 1)
      by reflexivity.
    rewrite Hn. cbn [connection_vector zip_with map].
    replace (0 ^ 3) with 0 by ring. by rewrite np_divide_zero.
  - rewrite (Pairs.entry_mx system_coincident 0 1 [0] [0] 1) by reflexivity.
    by rewrite Pairs.contribution_coincident.
Qed.

Lemma masses_AB_nonzero : Rsum (all_masses system_AB) <> 0.
Proof. unfold Rsum. simpl. lra. Defined.

Lemma wf_system_pair : wf_system system_pair.
Proof.
  unfold wf_system, wf_array, shape0. simpl.
  repeat split; repeat constructor.
Defined.

Lemma masses_pair_nonzero : Rsum (all_masses system_pair) <> 0.
Proof. unfold Rsum. simpl. lra. Defined.

Lemma positions_pair_apart : [0; 0] <> [3; 4].
Proof. intros H. injection H as H. lra. Defined.

(** The bodies of [system_pair] carry momentum, and [fix] changes their
    velocities. *)
Lemma total_pulse_pair : total_pulse system_pair = [2; 6].
Proof.
  unfold total_pulse.
  cbn [system_pair all_velocities all_masses rows shape1 zip_with map sum_rows foldr
       replicate].
  repeat f_equal; ring.
Qed.

Lemma fix_moves_system_pair :
  all_velocities (recentred system_pair) <> all_velocities system_pair.
Proof.
  unfold recentred. rewrite total_pulse_pair.
  cbn [system_pair all_velocities all_masses rows shape1 zip_with map].
  unfold Rsum. cbn [foldr].
  intros H. injection H as H _. lra.
Qed.

Lemma wf_system_test_mass : wf_system system_test_mass.
Proof.
  unfold wf_system, wf_array, shape0. simpl.
  repeat split; repeat constructor.
Defined.

Lemma line_apart : [0] <> [1].
Proof. intros H. injection H as H. lra. Defined.

Lemma norm_line (a : R) : a ^ 2 = 1 -> norm [a] = 1.
Proof.
  intros Ha. unfold norm. cbn [map]. rewrite !Rsum_cons.
  replace (a ^ 2 + Rsum []) with 1.
  - apply sqrt_1.
  - rewrite Ha. unfold Rsum. simpl. ring.
Qed.

Lemma norm_line_origin : norm [0] = 0.
Proof. apply norm_zero_iff. repeat constructor. Qed.

(** With a second body without mass the first is not accelerated and
    the second is. *)
Lemma accelleration_test_mass : accelleration 1 system_test_mass = [[0]; [-1]].
Proof.
  rewrite accelleration_rows by reflexivity.
  unfold pairwise_acceleration, contribution, connection_vector.
  cbn [system_test_mass all_positions all_masses rows shape1 map zip_with sum_rows
       foldr replicate].
  replace (0 - 0) with 0 by ring. replace (1 - 1) with 0 by ring.
  rewrite norm_line_origin, guard_zero.
  rewrite (norm_line (0 - 1)) by ring. rewrite (norm_line (1 - 0)) by ring.
  rewrite guard_one.
  repeat f_equal; field.
Qed.

(** With a negative constant the bodies A and B repel each other. *)
Lemma accelleration_AB_repulsive :
  accelleration (-1) system_AB = [[-1; 0; 0]; [1; 0; 0]].
Proof.
  rewrite accelleration_rows by reflexivity.
  unfold pairwise_acceleration, contribution, connection_vector.
  cbn [system_AB all_positions all_masses rows shape1 map zip_with sum_rows foldr
       replicate].
  replace (0 - 0) with 0 by ring. replace (1 - 1) with 0 by ring.
  rewrite norm_origin, guard_zero.
  rewrite (norm_unit_x (0 - 1)) by ring. rewrite (norm_unit_x (1 - 0)) by ring.
  rewrite guard_one.
  repeat f_equal; field.
Qed.

End Examples.

(** * Settled claims *)

(** ** Construction and lookup *)

(** C10: constructing a system from an empty list of bodies raises an
    exception, Python's [IndexError] at [args[0]], and yields no empty
    system. *)
Theorem from_bodies_empty_raises :
  forall np : numpy_version, from_bodies np [] = Raise IndexError.
Proof. intros np. reflexivity. Qed.

(** C9 as stated fails: the names of an empty list of bodies are all
    distinct and yet construction raises instead of succeeding. *)
Lemma from_bodies_distinct_names_can_fail :
  NoDup (name <$> []) /\
  from_bodies NumpyFrom_2_2 [] = Raise IndexError /\
  ~ (exists s, from_bodies NumpyFrom_2_2 [] = Return s).
Proof.
  split; [constructor|]. split; [reflexivity|].
  intros [s Hs]. discriminate Hs.
Qed.

(** C9, amended: with a repeated name construction raises the
    [AttributeError] of line 57, naming a body of the list, and no
    system is returned; with distinct names, at least one body and all
    vectors of the length of the first position, construction returns
    the system whose arrays hold the bodies row by row and whose index
    sends the name of the i-th body to i and nothing else. *)
Theorem from_bodies_names (np : numpy_version) (bodies : list PointMass) :
  (~ NoDup (name <$> bodies) ->
   exists n, n ∈ name <$> bodies /\
             from_bodies np bodies = Raise (several_objects_called n)) /\
  (forall (b0 : PointMass) (rest : list PointMass),
     bodies = b0 :: rest ->
     NoDup (name <$> bodies) ->
     Forall (fun b => length (position b) = length (position b0)) bodies ->
     Forall (fun b => length (velocity b) = length (position b0)) bodies ->
     exists idx,
       from_bodies np bodies
       = Return (mkSystem idx
                   (NDArray2 (length (position b0)) (position <$> bodies))
                   (NDArray2 (length (position b0)) (velocity <$> bodies))
                   (mass <$> bodies)) /\
       (forall i b, bodies !! i = Some b -> idx !! name b = Some i) /\
       (forall n, n ∉ name <$> bodies -> idx !! n = None)).
Proof.
  split.
  - intros Hdup.
    destruct (Construction.index_bodies_duplicate bodies 0 ∅) as (n & Hn & Hrun).
    { intros [Hnd _]. exact (Hdup Hnd). }
    exists n. split; [exact Hn|].
    unfold from_bodies, init. cbn. rewrite Hrun. reflexivity.
  - intros b0 rest -> Hnd Hpos Hvel.
    destruct (Construction.index_bodies_distinct (b0 :: rest) 0 ∅ Hnd)
      as (idx & Hrun & Hslots & Hother).
    { intros b _. apply lookup_empty. }
    exists idx. split; [|split].
    + unfold from_bodies, init.
      cbn [truth mbind result_bind]. rewrite Hrun.
      cbn [mbind result_bind fmap list_fmap getitem lookup list_lookup getattr_position].
      unfold np_zeros2.
      rewrite (Construction.fill_rows_uniform getattr_position position
                 (length (position b0)) (b0 :: rest)); [|done|exact Hpos|].
      2:{ rewrite length_replicate. simpl. by rewrite length_fmap. }
      cbn [mbind result_bind].
      rewrite (Construction.fill_rows_uniform getattr_velocity velocity
                 (length (position b0)) (b0 :: rest)); [|done|exact Hvel|].
      2:{ rewrite length_replicate. simpl. by rewrite length_fmap. }
      cbn [mbind result_bind].
      rewrite (Construction.fill_masses_all (b0 :: rest)).
      2:{ rewrite length_replicate. simpl. by rewrite length_fmap. }
      reflexivity.
    + intros i b Hi. rewrite (Hslots i b Hi). reflexivity.
    + intros n Hn. rewrite (Hother n Hn). apply lookup_empty.
Qed.

Lemma from_bodies_names_witness :
  (NoDup (name <$> [body_A; body_B]) /\
   Forall (fun b => length (position b) = length (position body_A)) [body_A; body_B] /\
   Forall (fun b => length (velocity b) = length (position body_A)) [body_A; body_B]) /\
  exists idx,
    from_bodies NumpyFrom_2_2 [body_A; body_B]
    = Return (mkSystem idx
                (NDArray2 (length (position body_A)) (position <$> [body_A; body_B]))
                (NDArray2 (length (position body_A)) (velocity <$> [body_A; body_B]))
                (mass <$> [body_A; body_B])) /\
    (forall i b, [body_A; body_B] !! i = Some b -> idx !! name b = Some i) /\
    (forall n, n ∉ name <$> [body_A; body_B] -> idx !! n = None).
Proof.
  assert (Hnd : NoDup (name <$> [body_A; body_B])).
  { cbn. apply NoDup_cons. split.
    - intros H. apply list_elem_of_singleton in H. discriminate H.
    - apply NoDup_singleton. }
  assert (Hp : Forall (fun b => length (position b) = length (position body_A))
                 [body_A; body_B]).
  { repeat constructor. }
  assert (Hv : Forall (fun b => length (velocity b) = length (position body_A))
                 [body_A; body_B]).
  { repeat constructor. }
  split; [auto|].
  exact (proj2 (from_bodies_names NumpyFrom_2_2 [body_A; body_B])
           body_A [body_B] eq_refl Hnd Hp Hv).
Defined.

(** The duplicate-name example of the specification. *)
Lemma from_bodies_AA (np : numpy_version) :
  from_bodies np [body_A; body_A] = Raise (several_objects_called "A").
Proof. reflexivity. Qed.

(** The constructor on the two bodies of the lookup example. *)
Lemma from_bodies_AB (np : numpy_version) :
  from_bodies np [body_A; body_B] = Return system_AB.
Proof. reflexivity. Qed.

(** [get_body] raises whatever the system and the name. *)
Lemma get_body_raises (n : string) (s : StaticSystem) :
  get_body n s = (Raise TypeError, s).
Proof. reflexivity. Qed.

(** C1, at the input of the specification: the system built from the
    bodies A and B is [system_AB], and looking up "B" in it raises
    [TypeError] and returns no snapshot, because line 174 calls the
    dictionary instead of indexing it. *)
Theorem get_body_B_raises :
  from_bodies NumpyFrom_2_2 [body_A; body_B] = Return system_AB /\
  get_body "B" system_AB = (Raise TypeError, system_AB).
Proof. split; reflexivity. Qed.

(** X15: for every system, timestep and constant, [step] with
    [inplace=False] raises and leaves the system as it was; the call
    that builds the new system takes the array of the positions for the
    flag of the constructor. *)
Lemma step_out_of_place_raises (np : numpy_version) (dt grav_const : R)
    (s : StaticSystem) :
  raises (fst (step np dt grav_const false s)) /\
  snd (step np dt grav_const false s) = s.
Proof.
  split; [|reflexivity].
  unfold step, init. cbn [fst truth].
  unfold array_truth.
  destruct (concat (rows (advance (all_positions s) (rows (all_velocities s)) dt)))
    as [|x [|y l]].
  - destruct np; cbn; eexists; reflexivity.
  - destruct (Req_dec_T x 0); cbn; eexists; reflexivity.
  - cbn. eexists; reflexivity.
Qed.

(** C5, at a concrete input: on the system of the bodies A and B,
    [step] with [inplace=False] raises [ValueError] and returns no new
    system; the original system is unchanged. *)
Theorem step_out_of_place_AB_raises :
  forall (np : numpy_version) (dt grav_const : R),
    step np dt grav_const false system_AB = (Raise ValueError, system_AB).
Proof. intros np dt grav_const. reflexivity. Qed.

(** ** The step *)

(** C2 as stated fails: with the displacement [position[j] - position[i]]
    of the specification the formula gives, for the bodies A and B and a
    unit constant, the opposite of the acceleration [step] computes. *)
Lemma acceleration_sign_AB :
  accelleration 1 system_AB <> pairwise_acceleration spec_displacement 1 system_AB.
Proof.
  rewrite Examples.accelleration_AB, Examples.spec_acceleration_AB.
  intros H. injection H as H. lra.
Qed.

(** C2, amended: for every well-formed system the acceleration [step]
    computes for slot i is [-G] times the sum over all slots j, the self
    term included, of [mass[j] * displacement(i,j) / distance(i,j)^3],
    where [displacement(i,j) = position[i] - position[j]] and the
    distance is the guarded one. *)
Theorem accelleration_pairwise (grav_const : R) (s : StaticSystem) :
  wf_system s ->
  accelleration grav_const s = pairwise_acceleration connection_vector grav_const s.
Proof.
  intros (_ & _ & _ & _ & Hm). by apply Kernel.accelleration_rows.
Qed.

Lemma accelleration_pairwise_witness :
  wf_system system_AB /\
  accelleration 1 system_AB = pairwise_acceleration connection_vector 1 system_AB.
Proof.
  split; [exact Examples.wf_system_AB|].
  exact (accelleration_pairwise 1 system_AB Examples.wf_system_AB).
Defined.

(** C3 as stated fails for a second body without mass and for a
    negative constant.  In [system_test_mass] the first body is not
    accelerated and the second is, so the acceleration of the second is
    no multiple of that of the first.  With [G = -1] the acceleration of
    A points away from B and its magnitude 1 is not [G*m2/d^2 = -1]. *)
Lemma two_body_law_needs_mass_and_sign :
  (wf_system system_test_mass /\
   rows (all_positions system_test_mass) = [[0]; [1]] /\
   all_masses system_test_mass = [1; 0] /\
   [0] <> [1] /\
   accelleration 1 system_test_mass = [[0]; [-1]] /\
   [-1] <> map (fun x => - (1 / 0) * x) [0] /\
   ~ (exists r : R, [-1] = map (fun x => r * x) [0])) /\
  (accelleration (-1) system_AB = [[-1; 0; 0]; [1; 0; 0]] /\
   norm [-1; 0; 0] <> -1 * 1 / norm (zip_with Rminus [1; 0; 0] [0; 0; 0]) ^ 2).
Proof.
  split.
  - split; [exact Examples.wf_system_test_mass|].
    split; [reflexivity|]. split; [reflexivity|].
    split; [exact Examples.line_apart|].
    split; [exact Examples.accelleration_test_mass|]. split.
    + cbn [map]. intros H. injection H as H. lra.
    + intros [r H]. cbn [map] in H. injection H as H. lra.
  - split; [exact Examples.accelleration_AB_repulsive|].
    rewrite (Examples.norm_unit_x (-1)) by ring.
    cbn [zip_with]. replace (0 - 0) with 0 by ring.
    rewrite (Examples.norm_unit_x (1 - 0)) by ring.
    intros H. replace (-1 * 1 / 1 ^ 2) with (-1) in H by field. lra.
Qed.

(** C3, amended: under exact arithmetic, in a system of two bodies with
    masses [m1], [m2] at distinct positions [p1], [p2] at distance [d],
    the acceleration of the first body is [G*m2/d^2] times the unit
    vector from [p1] toward [p2]; its magnitude is [G*m2/d^2] when the
    product [G*m2] is not negative; and the acceleration of the second
    body is the negation of the first scaled by the mass ratio [m1/m2]
    when the mass [m2] is not zero. *)
Theorem two_body_acceleration (grav_const m1 m2 : R) (p1 p2 : list R)
    (s : StaticSystem) :
  wf_system s ->
  rows (all_positions s) = [p1; p2] ->
  all_masses s = [m1; m2] ->
  p1 <> p2 ->
  let d := norm (zip_with Rminus p2 p1) in
  let toward := map (fun c => c / d) (zip_with Rminus p2 p1) in
  exists a1 a2 : list R,
    accelleration grav_const s = [a1; a2] /\
    0 < d /\
    norm toward = 1 /\
    a1 = map (fun c => grav_const * m2 / d ^ 2 * c) toward /\
    (0 <= grav_const * m2 -> norm a1 = grav_const * m2 / d ^ 2) /\
    (m2 <> 0 -> a2 = map (fun x => - (m1 / m2) * x) a1).
Proof.
  intros (Hp & _ & _ & _ & Hm) Hrows Hmasses Hne d toward.
  unfold wf_array in Hp. rewrite Hrows in Hp.
  apply Forall_cons in Hp as [Hp1 Hp2]. apply Forall_cons in Hp2 as [Hp2 _].
  assert (Hd : 0 < d).
  { destruct (Norm.norm_nonneg (zip_with Rminus p2 p1)) as [H|H]; [exact H|].
    exfalso. apply Hne. symmetry.
    apply (Norm.distance_zero_iff p2 p1); [congruence | by symmetry]. }
  assert (Hd' : norm (connection_vector p1 p2) = d).
  { apply Bodies.norm_symmetric. }
  assert (Hg : guard (norm (connection_vector p1 p2)) = d).
  { rewrite Hd'. apply Norm.guard_nonzero. lra. }
  assert (Hg' : guard (norm (connection_vector p2 p1)) = d).
  { apply Norm.guard_nonzero. fold d. lra. }
  exists (map (fun c => grav_const * m2 / d ^ 2 * c) toward),
         (map (fun c => - (grav_const * m1 / d ^ 2) * c) toward).
  split; [|split; [exact Hd|split; [|split; [reflexivity|split]]]].
  - rewrite Kernel.accelleration_rows by exact Hm.
    unfold pairwise_acceleration. rewrite Hrows, Hmasses.
    cbn [map zip_with sum_rows foldr]. unfold contribution. rewrite Hg, Hg'.
    unfold connection_vector, toward.
    rewrite (TwoBodies.first_row grav_const m1 m2 _ d p1)
      by (done || lra || apply pow_nonzero, Norm.guard_never_zero).
    rewrite (TwoBodies.second_row grav_const m1 m2 _ d p1)
      by (done || lra || apply pow_nonzero, Norm.guard_never_zero).
    reflexivity.
  - apply TwoBodies.norm_unit. exact Hd.
  - intros Hpos. rewrite Norm.norm_scale.
    + unfold toward, d. rewrite TwoBodies.norm_unit by exact Hd. ring.
    + apply Rmult_le_pos; [exact Hpos|].
      left. apply Rinv_0_lt_compat. apply pow_lt. exact Hd.
  - intros Hm2. rewrite map_map. apply map_ext. intros c. field.
    split; [lra | exact Hm2].
Qed.

Lemma two_body_acceleration_witness :
  (wf_system system_pair /\
   rows (all_positions system_pair) = [[0; 0]; [3; 4]] /\
   all_masses system_pair = [2; 3] /\
   [0; 0] <> [3; 4] /\
   0 <= 1 * 3 /\
   3 <> 0) /\
  let d := norm (zip_with Rminus [3; 4] [0; 0]) in
  let toward := map (fun c => c / d) (zip_with Rminus [3; 4] [0; 0]) in
  exists a1 a2 : list R,
    accelleration 1 system_pair = [a1; a2] /\
    0 < d /\
    norm toward = 1 /\
    a1 = map (fun c => 1 * 3 / d ^ 2 * c) toward /\
    norm a1 = 1 * 3 / d ^ 2 /\
    a2 = map (fun x => - (2 / 3) * x) a1.
Proof.
  assert (Hsign : 0 <= 1 * 3) by lra.
  assert (Hmass : 3 <> 0) by lra.
  split.
  - split; [exact Examples.wf_system_pair|].
    split; [reflexivity|]. split; [reflexivity|].
    split; [exact Examples.positions_pair_apart|]. split; assumption.
  - destruct (two_body_acceleration 1 2 3 [0; 0] [3; 4] system_pair
               Examples.wf_system_pair eq_refl eq_refl Examples.positions_pair_apart)
      as (a1 & a2 & Hacc & Hd & Hu & Ha1 & Hnorm & Hratio).
    exists a1, a2.
    split; [exact Hacc|]. split; [exact Hd|]. split; [exact Hu|].
    split; [exact Ha1|]. split; [exact (Hnorm Hsign) | exact (Hratio Hmass)].
Defined.

(** C4: for every well-formed system, every [dt] and every [G], the
    total momentum, the sum of the velocities weighted by the masses
    ([total_pulse], as [fix] computes it), is the same after a step in
    place as before it. *)
Theorem step_conserves_momentum (np : numpy_version) (dt grav_const : R)
    (s : StaticSystem) :
  wf_system s ->
  total_pulse (snd (step np dt grav_const true s)) = total_pulse s.
Proof.
  intros Hwf.
  destruct (Momentum.wf_system_bodies s Hwf) as (d & bodies & -> & Hpos & Hvel).
  apply Momentum.total_pulse_after_step; assumption.
Qed.

Lemma step_conserves_momentum_witness :
  wf_system system_AB /\
  total_pulse (snd (step NumpyFrom_2_2 1 1 true system_AB)) = total_pulse system_AB.
Proof.
  split; [exact Examples.wf_system_AB|].
  exact (step_conserves_momentum NumpyFrom_2_2 1 1 system_AB Examples.wf_system_AB).
Defined.

(** C7 as stated fails: the two bodies of [system_coincident] are
    distinct and at the same position; the guard replaces their distance
    0 by 1 and with it their contribution, 0/0 without the guard, by
    zero. *)
Lemma guard_alters_coincident_pair :
  wf_system system_coincident /\
  (0 <> 1)%nat /\
  entry (dist_map system_coincident) 0 1 = Some 0 /\
  entry (dist_map_rs system_coincident) 0 1 = Some 1 /\
  entry (mx_without_guard system_coincident) 0 1 = Some [NonFinite] /\
  entry (mx system_coincident) 0 1 = Some [0] /\
  [NonFinite] <> map Finite [0].
Proof.
  destruct Examples.coincident_pair_entries as (Hd & Hg & Hu & Hc).
  split; [exact Examples.wf_system_coincident|]. split; [lia|].
  do 4 (split; [assumption|]). discriminate.
Qed.

(** C7, amended: the guard alters exactly the entries whose computed
    distance is zero, which it makes one.  Among them are always the
    self-pairs and the pairs of distinct bodies at coincident positions:
    two slots holding the same position have distance zero, and their
    contribution is the zero vector.  For a pair whose computed distance
    is not zero the guard leaves the distance, and with it the
    contribution, as it is. *)
Theorem guard_alters_zero_distances (s : StaticSystem) (i j : nat)
    (pi pj : list R) (mj : R) :
  wf_system s ->
  rows (all_positions s) !! i = Some pi ->
  rows (all_positions s) !! j = Some pj ->
  all_masses s !! j = Some mj ->
  exists (d dg : R) (c : list R) (cu : list npfloat),
    entry (dist_map s) i j = Some d /\
    entry (dist_map_rs s) i j = Some dg /\
    entry (mx s) i j = Some c /\
    entry (mx_without_guard s) i j = Some cu /\
    (d = 0 -> dg = 1) /\
    (d <> 0 -> dg = d /\ cu = map Finite c) /\
    (pi = pj -> d = 0 /\ dg = 1 /\ c = replicate (shape1 (all_positions s)) 0).
Proof.
  intros (Hp & _ & _ & _ & Hm) Hi Hj Hmj.
  assert (Hlen : length pi = shape1 (all_positions s) /\
                 length pj = shape1 (all_positions s)).
  { unfold wf_array in Hp. rewrite Forall_lookup in Hp.
    split; [exact (Hp i pi Hi) | exact (Hp j pj Hj)]. }
  destruct Hlen as [Hli Hlj].
  eexists _, _, _, _.
  split; [exact (Pairs.entry_dist_map s i j pi pj Hi Hj)|].
  split; [exact (Pairs.entry_dist_map_rs s i j pi pj Hi Hj)|].
  split; [exact (Pairs.entry_mx s i j pi pj mj Hm Hi Hj Hmj)|].
  split; [exact (Pairs.entry_mx_without_guard s i j pi pj mj Hm Hi Hj Hmj)|].
  split; [|split].
  - intros ->. apply Norm.guard_zero.
  - intros Hd.
    split; [by apply Norm.guard_nonzero | by apply Pairs.contribution_apart].
  - intros <-.
    assert (Hd : norm (connection_vector pi pi) = 0).
    { by apply Norm.distance_zero_iff. }
    split; [exact Hd|]. split; [by rewrite Hd, Norm.guard_zero|].
    by rewrite Pairs.contribution_coincident, Hli.
Qed.

Lemma guard_alters_zero_distances_witness :
  (wf_system system_pair /\
   rows (all_positions system_pair) !! 0%nat = Some [0; 0] /\
   rows (all_positions system_pair) !! 1%nat = Some [3; 4] /\
   all_masses system_pair !! 1%nat = Some 3) /\
  exists (d dg : R) (c : list R) (cu : list npfloat),
    entry (dist_map system_pair) 0 1 = Some d /\
    entry (dist_map_rs system_pair) 0 1 = Some dg /\
    entry (mx system_pair) 0 1 = Some c /\
    entry (mx_without_guard system_pair) 0 1 = Some cu /\
    d <> 0 /\
    dg = d /\
    cu = map Finite c.
Proof.
  split.
  - split; [exact Examples.wf_system_pair|]. repeat split; reflexivity.
  - destruct (guard_alters_zero_distances system_pair 0 1 [0; 0] [3; 4] 3
               Examples.wf_system_pair eq_refl eq_refl eq_refl)
      as (d & dg & c & cu & Hd & Hdg & Hc & Hcu & _ & Hapart & _).
    assert (Hne : d <> 0).
    { rewrite (Pairs.entry_dist_map system_pair 0 1 [0; 0] [3; 4] eq_refl eq_refl)
        in Hd.
      injection Hd as <-. intros H0.
      apply Examples.positions_pair_apart.
      by apply (Norm.distance_zero_iff [0; 0] [3; 4]). }
    exists d, dg, c, cu.
    split; [exact Hd|]. split; [exact Hdg|]. split; [exact Hc|].
    split; [exact Hcu|]. split; [exact Hne|]. exact (Hapart Hne).
Defined.

(** ** Centre of mass and fix *)

(** C6 as stated fails: the total mass of [system_massless] is zero and
    neither [centre_of_mass] nor [fix] raises; the centre of mass
    returned is not finite. *)
Lemma massless_system_not_rejected :
  wf_system system_massless /\
  Rsum (all_masses system_massless) = 0 /\
  centre_of_mass system_massless = (Return [NonFinite], system_massless) /\
  ~ raises (fst (centre_of_mass system_massless)) /\
  ~ raises (fst (fix_ system_massless)).
Proof.
  assert (HM : Rsum (all_masses system_massless) = 0).
  { unfold Rsum. simpl. ring. }
  split; [exact Examples.wf_system_massless|]. split; [exact HM|].
  split; [|split].
  - unfold centre_of_mass. rewrite HM. cbn [map sum_rows foldr zip_with
      system_massless all_positions all_masses rows shape1 replicate].
    by rewrite Recentring.np_divide_zero.
  - intros [e He]. discriminate He.
  - intros [e He]. discriminate He.
Qed.

(** C6, amended: on a well-formed system neither [centre_of_mass] nor
    [fix] fails, whatever the total mass.  [centre_of_mass] returns a
    vector and leaves the system as it was; [fix] assigns the velocities
    and leaves the positions, the masses and the index as they were.
    With a total mass of zero the division is carried out silently:
    every coordinate of the centre of mass and every velocity after
    [fix] is then not finite. *)
Theorem centre_of_mass_and_fix_return (s : StaticSystem) :
  wf_system s ->
  (exists c : list npfloat,
     centre_of_mass s = (Return c, s) /\
     length c = shape1 (all_positions s) /\
     (Rsum (all_masses s) = 0 -> c = replicate (shape1 (all_positions s)) NonFinite)) /\
  (exists v : ndarray2 npfloat,
     fix_ s = (Return tt, mkSystem (bodyindex s) (all_positions s) v (all_masses s)) /\
     (Rsum (all_masses s) = 0 ->
      rows v = replicate (shape0 (all_velocities s))
                 (replicate (shape1 (all_velocities s)) NonFinite))).
Proof.
  intros Hwf.
  destruct (Momentum.wf_system_bodies s Hwf) as (d & bodies & Hs & Hpos & Hvel).
  rewrite Hs. unfold centre_of_mass, fix_, total_pulse, shape0.
  cbn [bodyindex all_positions all_velocities all_masses shape1 rows].
  split.
  - eexists. split; [reflexivity|]. split.
    + rewrite length_map. by apply Bodies.length_weighted_sum.
    + intros ->.
      rewrite (map_ext _ (fun _ => NonFinite)) by apply Recentring.np_divide_zero.
      rewrite <- (Bodies.length_weighted_sum d bodies position Hpos) at 2.
      generalize (sum_rows d (zip_with (fun row m => map (fun x => x * m) row)
                                (map position bodies) (map mass bodies))).
      intros l. induction l as [|x l IH]; simpl; congruence.
  - eexists. split; [reflexivity|].
    intros ->. cbn [rows].
    rewrite (map_ext _ (fun _ => NonFinite)) by apply Recentring.np_divide_zero.
    assert (Hc : map (fun _ : R => NonFinite)
                   (sum_rows d (zip_with (fun row m => map (fun x => x * m) row)
                                  (map velocity bodies) (map mass bodies)))
                 = replicate d NonFinite).
    { rewrite <- (Bodies.length_weighted_sum d bodies velocity Hvel) at 2.
      generalize (sum_rows d (zip_with (fun row m => map (fun x => x * m) row)
                                (map velocity bodies) (map mass bodies))).
      intros l. induction l as [|x l IH]; simpl; congruence. }
    rewrite Hc, map_map. clear Hc Hs Hpos.
    induction Hvel as [|b rest Hb Hrest IH]; [reflexivity|].
    cbn [map length replicate]. rewrite IH. f_equal.
    clear IH Hrest. revert d Hb. generalize (velocity b).
    intros row. induction row as [|x row IH]; intros [|d] Hd; try discriminate.
    + reflexivity.
    + simpl. rewrite IH; [reflexivity | by injection Hd].
Qed.

Lemma centre_of_mass_and_fix_return_witness :
  wf_system system_massless /\
  (exists c : list npfloat,
     centre_of_mass system_massless = (Return c, system_massless) /\
     length c = shape1 (all_positions system_massless) /\
     (Rsum (all_masses system_massless) = 0 ->
      c = replicate (shape1 (all_positions system_massless)) NonFinite)) /\
  (exists v : ndarray2 npfloat,
     fix_ system_massless
     = (Return tt,
        mkSystem (bodyindex system_massless) (all_positions system_massless) v
          (all_masses system_massless)) /\
     (Rsum (all_masses system_massless) = 0 ->
      rows v = replicate (shape0 (all_velocities system_massless))
                 (replicate (shape1 (all_velocities system_massless)) NonFinite))).
Proof.
  split; [exact Examples.wf_system_massless|].
  exact (centre_of_mass_and_fix_return system_massless Examples.wf_system_massless).
Defined.

(** C8: for every well-formed system with a total mass that is not
    zero, [fix] yields real velocities, the total momentum is then the
    zero vector, and a second [fix] yields exactly the velocities of the
    first.  The witness is [system_pair], whose momentum is not zero
    and whose velocities the first [fix] changes
    ([Examples.total_pulse_pair], [Examples.fix_moves_system_pair]). *)
Theorem fix_twice (s : StaticSystem) :
  wf_system s -> Rsum (all_masses s) <> 0 ->
  exists s1 : StaticSystem,
    fix_ s = (Return tt, finite_system s1) /\
    total_pulse s1 = replicate (shape1 (all_velocities s)) 0 /\
    fix_ s1 = (Return tt, finite_system s1).
Proof.
  intros Hwf HM. exists (recentred s). split; [|split].
  - apply Recentring.fix_recentred, HM.
  - by apply Recentring.total_pulse_recentred_wf.
  - rewrite Recentring.fix_recentred by exact HM.
    by rewrite Recentring.recentred_idempotent.
Qed.

Lemma fix_twice_witness :
  (wf_system system_pair /\ Rsum (all_masses system_pair) <> 0) /\
  exists s1 : StaticSystem,
    fix_ system_pair = (Return tt, finite_system s1) /\
    total_pulse s1 = replicate (shape1 (all_velocities system_pair)) 0 /\
    fix_ s1 = (Return tt, finite_system s1).
Proof.
  split; [split; [exact Examples.wf_system_pair | exact Examples.masses_pair_nonzero]|].
  exact (fix_twice system_pair Examples.wf_system_pair Examples.masses_pair_nonzero).
Defined.

(** * Further properties of the code *)

Module Shapes.

Lemma length_broadcast (d : nat) (v : list R) : fits d v -> length (broadcast d v) = d.
Proof.
  unfold fits, broadcast. intros [H|H].
  - by destruct (decide (length v = d)).
  - destruct (decide (length v = d)); [done|].
    destruct v as [|x [|y v]]; try discriminate. apply length_replicate.
Qed.

Lemma broadcast_same (d : nat) (v : list R) : length v = d -> broadcast d v = v.
Proof. intros H. unfold broadcast. by destruct (decide (length v = d)). Qed.

Lemma setitem_row_fits (d : nat) (rs : list (list R)) (i : nat) (v : list R) :
  (i < length rs)%nat -> fits d v ->
  setitem_row (NDArray2 d rs) i v = Return (NDArray2 d (<[i := broadcast d v]> rs)).
Proof.
  intros Hi Hv. unfold setitem_row, shape0, broadcast. cbn [rows shape1].
  destruct (decide (i < length rs)%nat); [|lia].
  destruct (decide (length v = d)); [reflexivity|].
  destruct Hv as [Hv|Hv]; [done|].
  by destruct v as [|x [|y v]].
Qed.

Lemma setitem_row_misfit (d : nat) (rs : list (list R)) (i : nat) (v : list R) :
  (i < length rs)%nat -> ~ fits d v ->
  setitem_row (NDArray2 d rs) i v = Raise ValueError.
Proof.
  intros Hi Hv. unfold setitem_row, shape0. cbn [rows shape1].
  destruct (decide (i < length rs)%nat); [|lia].
  destruct (decide (length v = d)) as [H|H]; [exfalso; apply Hv; by left|].
  destruct v as [|x [|y v]]; try reflexivity.
  exfalso. apply Hv. by right.
Qed.

(** A loop that fills the rows either stores every vector, broadcast,
    or stops with [ValueError] at the first vector that does not fit. *)
Lemma fill_rows_cases (attr : pyval -> result (list R)) (f : PointMass -> list R)
    (d : nat) (bodies : list PointMass) :
  (forall b, attr (VBody b) = Return (f b)) ->
  forall (i : nat) (rs : list (list R)),
    length rs = (i + length bodies)%nat ->
    fill_rows attr i (NDArray2 d rs) (VBody <$> bodies)
    = if decide (Forall (fun b => fits d (f b)) bodies)
      then Return (NDArray2 d (take i rs ++ ((fun b => broadcast d (f b)) <$> bodies)))
      else Raise ValueError.
Proof.
  intros Hattr. induction bodies as [|b rest IH]; intros i rs Hrs.
  - cbn. simpl in Hrs. rewrite Nat.add_0_r in Hrs.
    destruct (decide (Forall _ [])) as [_|H]; [|exfalso; apply H; constructor].
    rewrite firstn_all2 by lia. by rewrite app_nil_r.
  - cbn [fmap list_fmap fill_rows]. rewrite Hattr. cbn [mbind result_bind].
    simpl in Hrs.
    destruct (decide (fits d (f b))) as [Hb|Hb].
    + rewrite setitem_row_fits by (lia || done). cbn [mbind result_bind].
      rewrite IH by (rewrite length_insert; lia).
      destruct (decide (Forall _ rest)) as [Hrest|Hrest].
      * destruct (decide (Forall _ (b :: rest))) as [_|H];
          [|exfalso; apply H; by constructor].
        do 2 f_equal.
        rewrite (take_S_r _ _ (broadcast d (f b)))
          by (apply list_lookup_insert_eq; lia).
        rewrite take_insert_ge by lia. by rewrite <- app_assoc.
      * destruct (decide (Forall _ (b :: rest))) as [H|_]; [|reflexivity].
        exfalso. apply Hrest. by apply Forall_cons in H as [_ H].
    + rewrite setitem_row_misfit by (lia || done). cbn [mbind result_bind].
      destruct (decide (Forall _ (b :: rest))) as [H|_]; [|reflexivity].
      exfalso. apply Hb. by apply Forall_cons in H as [H _].
Qed.

(** What the constructor does on a list of at least one body with
    distinct names. *)
Lemma from_bodies_cases (np : numpy_version) (b0 : PointMass) (rest : list PointMass) :
  let bodies := b0 :: rest in
  let d := length (position b0) in
  NoDup (name <$> bodies) ->
  exists idx : gmap string nat,
    (forall k b, bodies !! k = Some b -> idx !! name b = Some k) /\
    (forall n, n ∉ name <$> bodies -> idx !! n = None) /\
    from_bodies np bodies
    = if decide (Forall (fun b => fits d (position b)) bodies)
      then if decide (Forall (fun b => fits d (velocity b)) bodies)
           then Return (mkSystem idx
                          (NDArray2 d ((fun b => broadcast d (position b)) <$> bodies))
                          (NDArray2 d ((fun b => broadcast d (velocity b)) <$> bodies))
                          (mass <$> bodies))
           else Raise ValueError
      else Raise ValueError.
Proof.
  intros bodies d Hnd.
  destruct (Construction.index_bodies_distinct bodies 0 ∅ Hnd)
    as (idx & Hrun & Hslots & Hother).
  { intros b _. apply lookup_empty. }
  exists idx. split; [exact Hslots|]. split.
  { intros n Hn. rewrite (Hother n Hn). apply lookup_empty. }
  unfold from_bodies, init.
  cbn [truth mbind result_bind]. fold bodies. rewrite Hrun.
  change (getitem (VBody <$> bodies) 0) with (Return (VBody b0)).
  cbn [mbind result_bind getattr_position]. fold d. unfold np_zeros2.
  assert (Hlen : forall (A : Type) (x : A),
             length (replicate (length (VBody <$> bodies)) x)
             = (0 + length bodies)%nat).
  { intros A x. by rewrite length_replicate, length_fmap. }
  rewrite (fill_rows_cases getattr_position position d bodies) by (done || apply Hlen).
  destruct (decide (Forall (fun b => fits d (position b)) bodies)); [|reflexivity].
  cbn [mbind result_bind].
  rewrite (fill_rows_cases getattr_velocity velocity d bodies) by (done || apply Hlen).
  destruct (decide (Forall (fun b => fits d (velocity b)) bodies)); [|reflexivity].
  cbn [mbind result_bind].
  rewrite (Construction.fill_masses_all bodies) by apply Hlen.
  reflexivity.
Qed.

End Shapes.

Module Built.
Import Shapes.

(** Whatever the constructor returns from bodies is the system of the
    broadcast vectors of at least one body with distinct names. *)
Lemma from_bodies_inv (np : numpy_version) (bodies : list PointMass) (s : StaticSystem) :
  from_bodies np bodies = Return s ->
  exists (b0 : PointMass) (rest : list PointMass),
    let d := length (position b0) in
    bodies = b0 :: rest /\
    NoDup (name <$> bodies) /\
    Forall (fun b => fits d (position b)) bodies /\
    Forall (fun b => fits d (velocity b)) bodies /\
    (forall k b, bodies !! k = Some b -> bodyindex s !! name b = Some k) /\
    (forall n, n ∉ name <$> bodies -> bodyindex s !! n = None) /\
    s = mkSystem (bodyindex s)
          (NDArray2 d ((fun b => broadcast d (position b)) <$> bodies))
          (NDArray2 d ((fun b => broadcast d (velocity b)) <$> bodies))
          (mass <$> bodies).
Proof.
  intros Hs. destruct bodies as [|b0 rest]; [discriminate Hs|].
  exists b0, rest. cbn zeta.
  destruct (decide (NoDup (name <$> b0 :: rest))) as [Hnd|Hnd].
  - destruct (from_bodies_cases np b0 rest Hnd) as (idx & Hslots & Hother & Hrun).
    cbn zeta in Hrun. rewrite Hrun in Hs.
    destruct (decide (Forall _ (b0 :: rest))) as [Hp|]; [|discriminate Hs].
    destruct (decide (Forall _ (b0 :: rest))) as [Hv|]; [|discriminate Hs].
    injection Hs as <-. cbn [bodyindex]. auto 10.
  - destruct (Construction.index_bodies_duplicate (b0 :: rest) 0 ∅) as (n & _ & Hrun).
    { intros [H _]. exact (Hnd H). }
    unfold from_bodies, init in Hs. cbn [truth mbind result_bind] in Hs.
    rewrite Hrun in Hs. discriminate Hs.
Qed.

Lemma index_bodies_not_a_body (pre : list PointMass) (v : pyval) (post : list pyval) :
  (forall b, v <> VBody b) ->
  forall (i : nat) (idx : gmap string nat),
    NoDup (name <$> pre) ->
    (forall b, b ∈ pre -> idx !! name b = None) ->
    index_bodies i idx ((VBody <$> pre) ++ v :: post) = no_attribute v "name".
Proof.
  intros Hv. induction pre as [|b pre IH]; intros i idx Hnd Hfresh.
  - cbn. destruct v; try reflexivity. by destruct (Hv b).
  - apply NoDup_cons in Hnd as [Hb Hnd]. cbn.
    destruct (decide (is_Some (idx !! name b))) as [Hin|_].
    + rewrite Hfresh in Hin by left. by destruct Hin.
    + apply IH; [exact Hnd|].
      intros b' Hb'. rewrite lookup_insert_ne.
      * apply Hfresh. by right.
      * intros Heq. apply Hb. rewrite Heq. by apply list_elem_of_fmap_2.
Qed.

End Built.

(** X1: whenever construction from bodies returns a system, the system
    satisfies the invariant of the data model: both arrays are
    rectangular with one row per body and as many columns as the first
    position has coordinates, and the masses are those of the bodies in
    input order. *)
Theorem from_bodies_establishes_invariant (np : numpy_version)
    (bodies : list PointMass) (s : StaticSystem) :
  from_bodies np bodies = Return s ->
  wf_system s /\
  shape0 (all_positions s) = length bodies /\
  (forall b0, head bodies = Some b0 -> shape1 (all_positions s) = length (position b0)) /\
  all_masses s = mass <$> bodies.
Proof.
  intros Hs.
  destruct (Built.from_bodies_inv np bodies s Hs)
    as (b0 & rest & -> & _ & Hp & Hv & _ & _ & ->).
  set (d := length (position b0)) in *.
  unfold wf_system, wf_array, shape0.
  cbn [all_positions all_velocities all_masses rows shape1].
  rewrite !length_fmap.
  split; [|split; [reflexivity | split; [|reflexivity]]].
  - split; [|split; [|auto]].
    + apply Forall_fmap. eapply Forall_impl; [exact Hp|].
      intros b Hb. by apply Shapes.length_broadcast.
    + apply Forall_fmap. eapply Forall_impl; [exact Hv|].
      intros b Hb. by apply Shapes.length_broadcast.
  - intros b [= <-]. reflexivity.
Qed.

Lemma from_bodies_establishes_invariant_witness :
  from_bodies NumpyFrom_2_2 [body_A; body_B] = Return system_AB /\
  wf_system system_AB /\
  shape0 (all_positions system_AB) = length [body_A; body_B] /\
  (forall b0, head [body_A; body_B] = Some b0 ->
              shape1 (all_positions system_AB) = length (position b0)) /\
  all_masses system_AB = mass <$> [body_A; body_B].
Proof.
  split; [reflexivity|].
  exact (from_bodies_establishes_invariant NumpyFrom_2_2 [body_A; body_B] system_AB
           eq_refl).
Defined.

(** X2: whenever construction from bodies returns a system, the names
    of the bodies are distinct and the index holds exactly the pairs of
    the name of the body at place [k] and [k]: looking up a name gives
    the place of its body, and nothing else is in the index. *)
Theorem from_bodies_index_exact (np : numpy_version)
    (bodies : list PointMass) (s : StaticSystem) :
  from_bodies np bodies = Return s ->
  NoDup (name <$> bodies) /\
  forall (n : string) (k : nat),
    bodyindex s !! n = Some k <-> exists b, bodies !! k = Some b /\ name b = n.
Proof.
  intros Hs.
  destruct (Built.from_bodies_inv np bodies s Hs)
    as (b0 & rest & Hb & Hnd & _ & _ & Hslots & Hother & _).
  split; [exact Hnd|]. intros n k. split.
  - intros Hk.
    destruct (decide (n ∈ name <$> bodies)) as [Hn|Hn].
    + apply list_elem_of_fmap in Hn as (b & -> & Hin).
      apply list_elem_of_lookup in Hin as [j Hj].
      rewrite (Hslots j b Hj) in Hk. injection Hk as <-. eauto.
    + rewrite (Hother n Hn) in Hk. discriminate Hk.
  - intros (b & Hk & <-). by apply Hslots.
Qed.

Lemma from_bodies_index_exact_witness :
  from_bodies NumpyFrom_2_2 [body_A; body_B] = Return system_AB /\
  NoDup (name <$> [body_A; body_B]) /\
  forall (n : string) (k : nat),
    bodyindex system_AB !! n = Some k <->
    exists b, [body_A; body_B] !! k = Some b /\ name b = n.
Proof.
  split; [reflexivity|].
  exact (from_bodies_index_exact NumpyFrom_2_2 [body_A; body_B] system_AB eq_refl).
Defined.

(** X3: with at least one body, distinct names and every position and
    velocity of the length of the first position or of length one,
    construction succeeds, and a vector of length one fills its whole
    row (numpy broadcasts it) instead of being rejected. *)
Theorem from_bodies_broadcasts (np : numpy_version) (b0 : PointMass)
    (rest : list PointMass) :
  let bodies := b0 :: rest in
  let d := length (position b0) in
  NoDup (name <$> bodies) ->
  Forall (fun b => fits d (position b)) bodies ->
  Forall (fun b => fits d (velocity b)) bodies ->
  exists idx : gmap string nat,
    from_bodies np bodies
    = Return (mkSystem idx
                (NDArray2 d ((fun b => broadcast d (position b)) <$> bodies))
                (NDArray2 d ((fun b => broadcast d (velocity b)) <$> bodies))
                (mass <$> bodies)).
Proof.
  intros bodies d Hnd Hp Hv. subst bodies d.
  destruct (Shapes.from_bodies_cases np b0 rest Hnd) as (idx & _ & _ & Hrun).
  exists idx. cbn zeta in Hrun. rewrite Hrun.
  destruct (decide (Forall _ (b0 :: rest))); [|done].
  destruct (decide (Forall _ (b0 :: rest))); [|done].
  reflexivity.
Qed.

Lemma names_AC_distinct : NoDup (name <$> [body_A; body_C]).
Proof.
  cbn. apply NoDup_cons. split.
  - intros H. apply list_elem_of_singleton in H. discriminate H.
  - apply NoDup_singleton.
Defined.

Lemma names_AD_distinct : NoDup (name <$> [body_A; body_D]).
Proof.
  cbn. apply NoDup_cons. split.
  - intros H. apply list_elem_of_singleton in H. discriminate H.
  - apply NoDup_singleton.
Defined.

Lemma from_bodies_broadcasts_witness :
  (NoDup (name <$> [body_A; body_C]) /\
   Forall (fun b => fits 3 (position b)) [body_A; body_C] /\
   Forall (fun b => fits 3 (velocity b)) [body_A; body_C]) /\
  exists idx : gmap string nat,
    from_bodies NumpyFrom_2_2 [body_A; body_C]
    = Return (mkSystem idx
                (NDArray2 3 ((fun b => broadcast 3 (position b)) <$> [body_A; body_C]))
                (NDArray2 3 ((fun b => broadcast 3 (velocity b)) <$> [body_A; body_C]))
                (mass <$> [body_A; body_C])).
Proof.
  assert (Hp : Forall (fun b => fits 3 (position b)) [body_A; body_C]).
  { constructor; [by left|]. constructor; [by right | constructor]. }
  assert (Hv : Forall (fun b => fits 3 (velocity b)) [body_A; body_C]).
  { constructor; [by left|]. constructor; [by left | constructor]. }
  split; [split; [exact names_AC_distinct | split; assumption]|].
  exact (from_bodies_broadcasts NumpyFrom_2_2 body_A [body_C] names_AC_distinct Hp Hv).
Defined.

(** X4: with at least one body and distinct names, construction raises
    [ValueError] as soon as some position or velocity has neither the
    length of the first position nor length one. *)
Theorem from_bodies_misfit_raises (np : numpy_version) (b0 : PointMass)
    (rest : list PointMass) :
  let bodies := b0 :: rest in
  let d := length (position b0) in
  NoDup (name <$> bodies) ->
  ~ (Forall (fun b => fits d (position b)) bodies /\
     Forall (fun b => fits d (velocity b)) bodies) ->
  from_bodies np bodies = Raise ValueError.
Proof.
  intros bodies d Hnd Hbad. subst bodies d.
  destruct (Shapes.from_bodies_cases np b0 rest Hnd) as (idx & _ & _ & Hrun).
  cbn zeta in Hrun. rewrite Hrun.
  destruct (decide (Forall _ (b0 :: rest))); [|done].
  destruct (decide (Forall _ (b0 :: rest))); [|done].
  exfalso. apply Hbad. by split.
Qed.

Lemma from_bodies_misfit_raises_witness :
  (NoDup (name <$> [body_A; body_D]) /\
   ~ (Forall (fun b => fits 3 (position b)) [body_A; body_D] /\
      Forall (fun b => fits 3 (velocity b)) [body_A; body_D])) /\
  from_bodies NumpyFrom_2_2 [body_A; body_D] = Raise ValueError.
Proof.
  assert (Hbad : ~ (Forall (fun b => fits 3 (position b)) [body_A; body_D] /\
                    Forall (fun b => fits 3 (velocity b)) [body_A; body_D])).
  { intros [Hp _]. apply Forall_cons in Hp as [_ Hp]. apply Forall_cons in Hp as [Hp _].
    destruct Hp as [Hp|Hp]; discriminate Hp. }
  split; [split; [exact names_AD_distinct | exact Hbad]|].
  exact (from_bodies_misfit_raises NumpyFrom_2_2 body_A [body_D] names_AD_distinct Hbad).
Defined.

(** X5: when the positional arguments start with bodies of distinct
    names followed by a value that is not a body, construction from
    bodies raises the [AttributeError] of the missing attribute [name]
    of that value, whatever follows it. *)
Theorem init_not_a_body_raises (np : numpy_version) (pre : list PointMass)
    (v : pyval) (post : list pyval) :
  (forall b, v <> VBody b) ->
  NoDup (name <$> pre) ->
  init np (VBool true) ((VBody <$> pre) ++ v :: post) = no_attribute v "name".
Proof.
  intros Hv Hnd. unfold init. cbn [truth mbind result_bind].
  rewrite (Built.index_bodies_not_a_body pre v post Hv 0 ∅ Hnd).
  - reflexivity.
  - intros b _. apply lookup_empty.
Qed.

Lemma init_not_a_body_raises_witness :
  ((forall b, VDict ∅ <> VBody b) /\ NoDup (name <$> [body_A])) /\
  init NumpyFrom_2_2 (VBool true) ((VBody <$> [body_A]) ++ VDict ∅ :: [VBody body_B])
  = no_attribute (VDict ∅) "name".
Proof.
  assert (Hv : forall b, VDict ∅ <> VBody b) by (intros b H; discriminate H).
  assert (Hnd : NoDup (name <$> [body_A])) by apply NoDup_singleton.
  split; [split; assumption|].
  exact (init_not_a_body_raises NumpyFrom_2_2 [body_A] (VDict ∅) [VBody body_B] Hv Hnd).
Defined.

(** X6: the constructor on already shaped state (flag [False]) raises
    [IndexError] when it is given fewer than four positional arguments. *)
Theorem init_raw_needs_four (np : numpy_version) (args : list pyval) :
  (length args < 4)%nat ->
  init np (VBool false) args = Raise IndexError.
Proof.
  intros Hlen. unfold init. cbn [truth mbind result_bind].
  destruct args as [|a0 [|a1 [|a2 [|a3 args]]]]; try reflexivity.
  simpl in Hlen. lia.
Qed.

Lemma init_raw_needs_four_witness :
  (length [VArray1 [1%R]] < 4)%nat /\
  init NumpyFrom_2_2 (VBool false) [VArray1 [1]] = Raise IndexError.
Proof.
  assert (H : (length [VArray1 [1%R]] < 4)%nat) by (simpl; lia).
  split; [exact H|].
  exact (init_raw_needs_four NumpyFrom_2_2 [VArray1 [1]] H).
Defined.

Module Advance.
Import Kernel Sums Bodies Momentum Recentring Norm.

Lemma wf_system_of_bodies (s : StaticSystem) :
  wf_system s ->
  exists (idx : gmap string nat) (d : nat) (bodies : list PointMass),
    s = mkSystem idx (NDArray2 d (map position bodies))
          (NDArray2 d (map velocity bodies)) (map mass bodies) /\
    Forall (fun b => length (position b) = d) bodies /\
    Forall (fun b => length (velocity b) = d) bodies.
Proof.
  intros Hwf. destruct (wf_system_bodies s Hwf) as (d & bodies & Hs & Hp & Hv).
  exists (bodyindex s), d, bodies. auto.
Qed.

Lemma bodies_wf (idx : gmap string nat) (d : nat) (bodies : list PointMass)
    (f g : PointMass -> list R) :
  Forall (fun b => length (f b) = d) bodies ->
  Forall (fun b => length (g b) = d) bodies ->
  wf_system (mkSystem idx (NDArray2 d (map f bodies)) (NDArray2 d (map g bodies))
               (map mass bodies)).
Proof.
  intros Hf Hg. unfold wf_system, wf_array, shape0.
  cbn [all_positions all_velocities all_masses rows shape1].
  rewrite !length_map.
  split; [by apply Forall_map|]. split; [by apply Forall_map|]. auto.
Qed.

(** The state an in-place step leaves, body by body. *)
Lemma step_bodies (np : numpy_version) (dt grav_const : R) (idx : gmap string nat)
    (d : nat) (bodies : list PointMass) :
  snd (step np dt grav_const true
         (mkSystem idx (NDArray2 d (map position bodies))
            (NDArray2 d (map velocity bodies)) (map mass bodies)))
  = mkSystem idx
      (NDArray2 d
         (map (fun b => zip_with Rplus (position b)
                          (map (fun x => x * dt) (velocity b))) bodies))
      (NDArray2 d
         (map (fun b => zip_with Rplus (velocity b)
                          (map (fun x => x * dt)
                             (acc_at d bodies grav_const (position b)))) bodies))
      (map mass bodies).
Proof.
  unfold step.
  cbn [snd all_velocities all_positions all_masses bodyindex advance shape1 rows].
  rewrite accelleration_bodies. unfold advance. cbn [shape1 rows].
  rewrite !map_map, !zip_with_map_map. reflexivity.
Qed.

Lemma zip_with_Rplus_null (f : R -> R) (u w : list R) :
  (forall y, f y = 0) -> length u = length w ->
  zip_with Rplus u (map f w) = u.
Proof.
  intros Hf. revert w; induction u as [|x u IH]; intros [|y w] Hlen; try discriminate.
  - reflexivity.
  - cbn [map zip_with]. rewrite Hf, IH by (by injection Hlen). f_equal. ring.
Qed.

Lemma zip_with_ext_Forall {A B C : Type} (P : A -> Prop) (f g : A -> B -> C)
    (l : list A) (k : list B) :
  Forall P l -> (forall x y, P x -> f x y = g x y) ->
  zip_with f l k = zip_with g l k.
Proof.
  intros Hl Hfg. revert k. induction Hl as [|x l Hx Hl IH]; intros [|y k]; try reflexivity.
  cbn [zip_with]. rewrite IH. f_equal. by apply Hfg.
Qed.

Lemma connection_vector_translate (t p q : list R) :
  length p = length t -> length q = length t ->
  connection_vector (zip_with Rplus p t) (zip_with Rplus q t) = connection_vector p q.
Proof.
  unfold connection_vector.
  revert p q; induction t as [|z t IH]; intros [|x p] [|y q] Hp Hq; try discriminate.
  - reflexivity.
  - cbn [zip_with]. rewrite IH by (by simplify_eq/=). f_equal. ring.
Qed.

Lemma sum_rows_zero_row (d : nat) : sum_rows d [replicate d 0] = replicate d 0.
Proof.
  cbn [sum_rows foldr]. induction d as [|d IH]; [reflexivity|].
  cbn [replicate zip_with]. rewrite IH. f_equal. ring.
Qed.

Lemma map_scale_zero (c : R) (d : nat) :
  map (fun x => c * x) (replicate d 0) = replicate d 0.
Proof.
  induction d as [|d IH]; [reflexivity|].
  cbn [replicate map]. rewrite IH. f_equal. ring.
Qed.

Lemma recentred_wf (s : StaticSystem) : wf_system s -> wf_system (recentred s).
Proof.
  intros Hwf.
  destruct (wf_system_of_bodies s Hwf) as (idx & d & bodies & -> & Hp & Hv).
  unfold recentred, total_pulse.
  cbn [all_velocities all_positions all_masses bodyindex shape1 rows].
  rewrite map_map. apply bodies_wf; [exact Hp|].
  eapply Forall_impl; [exact Hv|]. intros b Hb. simpl in *.
  rewrite length_zip_with, length_map, length_weighted_sum by assumption. lia.
Qed.

Lemma total_pulse_step_wf (np : numpy_version) (dt grav_const : R) (s : StaticSystem) :
  wf_system s ->
  total_pulse (snd (step np dt grav_const true s)) = total_pulse s.
Proof.
  intros Hwf.
  destruct (wf_system_of_bodies s Hwf) as (idx & d & bodies & -> & Hpos & Hvel).
  apply total_pulse_after_step; assumption.
Qed.

(** With a total mass that is not zero [centre_of_mass] returns
    [centre]. *)
Lemma centre_of_mass_centre (s : StaticSystem) :
  Rsum (all_masses s) <> 0 ->
  centre_of_mass s = (Return (map Finite (centre s)), s).
Proof.
  intros HM. unfold centre_of_mass, centre. do 2 f_equal.
  rewrite map_map. apply map_ext. intros x. by apply np_divide_nonzero.
Qed.

End Advance.

Module Laws.
Import Kernel Sums Bodies Momentum Recentring Norm Advance.

Lemma map_difference_swap (f g : R -> R) (u : list R) :
  (forall x y, f (x - y) = g (y - x)) ->
  forall v, map f (zip_with Rminus u v) = map g (zip_with Rminus v u).
Proof.
  intros Hfg. induction u as [|x u IH]; intros [|y v]; try reflexivity.
  cbn [zip_with map]. by rewrite Hfg, IH.
Qed.

Lemma difference_recentred (c u v : list R) :
  length u = length c -> length v = length c ->
  zip_with Rminus (zip_with Rminus u c) (zip_with Rminus v c) = zip_with Rminus u v.
Proof.
  revert u v; induction c as [|z c IH]; intros [|x u] [|y v] Hu Hv; try discriminate.
  - reflexivity.
  - cbn [zip_with]. rewrite IH by (by simplify_eq/=). f_equal. ring.
Qed.

Lemma nth_zip_with_null (f : R -> R -> R) (u v : list R) (k : nat) :
  f 0 0 = 0 -> length u = length v ->
  nth k (zip_with f u v) 0 = f (nth k u 0) (nth k v 0).
Proof.
  intros Hf. revert v k; induction u as [|x u IH]; intros [|y v] k Hlen;
    try discriminate.
  - destruct k; simpl; by rewrite Hf.
  - destruct k; simpl; [reflexivity|]. apply IH. by injection Hlen.
Qed.

Lemma zip_with_Rplus_zeros (f : R -> R) (u : list R) :
  f 0 = 0 -> forall d, length u = d -> zip_with Rplus u (map f (replicate d 0)) = u.
Proof.
  intros Hf. induction u as [|x u IH]; intros [|d] Hlen; try discriminate.
  - reflexivity.
  - cbn [replicate map zip_with]. rewrite Hf, IH by (by injection Hlen).
    f_equal. ring.
Qed.

Lemma length_total_pulse (s : StaticSystem) :
  wf_system s -> length (total_pulse s) = shape1 (all_velocities s).
Proof.
  intros Hwf.
  destruct (wf_system_of_bodies s Hwf) as (idx & d & bodies & -> & Hp & Hv).
  unfold total_pulse. cbn [all_velocities all_masses shape1 rows].
  by apply length_weighted_sum.
Qed.

End Laws.

(** X7: an in-place step of a well-formed system returns [None] and
    leaves a well-formed system with the same index, the same masses
    and the same shape: slots are never renumbered. *)
Theorem step_in_place_keeps_invariant (np : numpy_version) (dt grav_const : R)
    (s : StaticSystem) :
  wf_system s ->
  let s' := snd (step np dt grav_const true s) in
  fst (step np dt grav_const true s) = Return None /\
  wf_system s' /\
  bodyindex s' = bodyindex s /\
  all_masses s' = all_masses s /\
  shape0 (all_positions s') = shape0 (all_positions s) /\
  shape1 (all_positions s') = shape1 (all_positions s).
Proof.
  intros Hwf s'. subst s'. split; [reflexivity|].
  destruct (Advance.wf_system_of_bodies s Hwf) as (idx & d & bodies & -> & Hp & Hv).
  rewrite Advance.step_bodies. split.
  - apply Advance.bodies_wf.
    + apply Forall_forall. intros b Hb. rewrite Forall_forall in Hp, Hv.
      rewrite length_zip_with, length_map, (Hp b Hb), (Hv b Hb). lia.
    + apply Forall_forall. intros b Hb. rewrite Forall_forall in Hv.
      rewrite length_zip_with, length_map, (Hv b Hb).
      rewrite (Bodies.length_acc_at d bodies Hp).
      * lia.
      * rewrite Forall_forall in Hp. by apply Hp.
  - unfold shape0. cbn [bodyindex all_masses all_positions rows shape1].
    by rewrite !length_map.
Qed.

Lemma step_in_place_keeps_invariant_witness :
  wf_system system_AB /\
  let s' := snd (step NumpyFrom_2_2 1 1 true system_AB) in
  fst (step NumpyFrom_2_2 1 1 true system_AB) = Return None /\
  wf_system s' /\
  bodyindex s' = bodyindex system_AB /\
  all_masses s' = all_masses system_AB /\
  shape0 (all_positions s') = shape0 (all_positions system_AB) /\
  shape1 (all_positions s') = shape1 (all_positions system_AB).
Proof.
  split; [exact Examples.wf_system_AB|].
  exact (step_in_place_keeps_invariant NumpyFrom_2_2 1 1 system_AB
           Examples.wf_system_AB).
Defined.

(** X8: under exact arithmetic, an in-place step with a timestep of
    zero leaves a well-formed system exactly as it was, whatever the
    gravitational constant. *)
Theorem step_zero_timestep (np : numpy_version) (grav_const : R) (s : StaticSystem) :
  wf_system s ->
  step np 0 grav_const true s = (Return None, s).
Proof.
  intros Hwf.
  rewrite (surjective_pairing (step np 0 grav_const true s)). f_equal.
  destruct (Advance.wf_system_of_bodies s Hwf) as (idx & d & bodies & -> & Hp & Hv).
  rewrite Advance.step_bodies. do 2 f_equal.
  - apply map_ext_Forall. apply Forall_forall. intros b Hb.
    rewrite Forall_forall in Hp, Hv.
    apply Advance.zip_with_Rplus_null; [intros y; ring|].
    by rewrite (Hp b Hb), (Hv b Hb).
  - apply map_ext_Forall. apply Forall_forall. intros b Hb.
    apply Advance.zip_with_Rplus_null; [intros y; ring|].
    rewrite (Bodies.length_acc_at d bodies Hp).
    + rewrite Forall_forall in Hv. by apply Hv.
    + rewrite Forall_forall in Hp. by apply Hp.
Qed.

Lemma step_zero_timestep_witness :
  wf_system system_pair /\
  step NumpyFrom_2_2 0 1 true system_pair = (Return None, system_pair).
Proof.
  split; [exact Examples.wf_system_pair|].
  exact (step_zero_timestep NumpyFrom_2_2 1 system_pair Examples.wf_system_pair).
Defined.

(** X9: under exact arithmetic, with a gravitational constant of zero
    every acceleration of a well-formed system is the zero vector and an
    in-place step leaves the velocities as they were. *)
Theorem step_without_gravity (np : numpy_version) (dt : R) (s : StaticSystem) :
  wf_system s ->
  accelleration 0 s
  = replicate (shape0 (all_positions s)) (replicate (shape1 (all_positions s)) 0) /\
  all_velocities (snd (step np dt 0 true s)) = all_velocities s.
Proof.
  intros Hwf.
  destruct (Advance.wf_system_of_bodies s Hwf) as (idx & d & bodies & -> & Hp & Hv).
  assert (Hacc : Forall (fun b => acc_at d bodies 0 (position b) = replicate d 0) bodies).
  { apply Forall_forall. intros b Hb. rewrite Forall_forall in Hp.
    unfold acc_at.
    rewrite <- (Sums.length_sum_rows d
                  (map (fun b' => contribution connection_vector (position b)
                                    (position b') (mass b')) bodies))
      at 2 by (apply (Bodies.contributions_length d bodies); [by apply Forall_forall | by apply Hp]).
    generalize (sum_rows d
                  (map (fun b' => contribution connection_vector (position b)
                                    (position b') (mass b')) bodies)).
    intros l. induction l as [|x l IH]; [reflexivity|].
    cbn [map length replicate]. rewrite IH. f_equal. ring. }
  split.
  - rewrite Momentum.accelleration_bodies. unfold shape0.
    cbn [all_positions rows shape1]. rewrite length_map.
    rewrite (map_ext_Forall _ (fun _ => replicate d 0) Hacc).
    generalize bodies. intros l. induction l as [|b l IH]; [reflexivity|].
    cbn [map length replicate]. by rewrite IH.
  - rewrite Advance.step_bodies. cbn [all_velocities]. f_equal.
    apply map_ext_Forall. apply Forall_forall. intros b Hb.
    rewrite Forall_forall in Hacc, Hv. rewrite (Hacc b Hb).
    apply Laws.zip_with_Rplus_zeros; [ring | by apply Hv].
Qed.

Lemma step_without_gravity_witness :
  wf_system system_pair /\
  accelleration 0 system_pair
  = replicate (shape0 (all_positions system_pair))
      (replicate (shape1 (all_positions system_pair)) 0) /\
  all_velocities (snd (step NumpyFrom_2_2 1 0 true system_pair))
  = all_velocities system_pair.
Proof.
  split; [exact Examples.wf_system_pair|].
  exact (step_without_gravity NumpyFrom_2_2 1 system_pair Examples.wf_system_pair).
Defined.

(** X10: in a well-formed system of one body the acceleration is the
    zero vector, the guarded self term contributing nothing, and an
    in-place step leaves the velocity as it was. *)
Theorem single_body_is_not_accelerated (np : numpy_version) (dt grav_const m : R)
    (p : list R) (s : StaticSystem) :
  wf_system s ->
  rows (all_positions s) = [p] ->
  all_masses s = [m] ->
  accelleration grav_const s = [replicate (shape1 (all_positions s)) 0] /\
  all_velocities (snd (step np dt grav_const true s)) = all_velocities s.
Proof.
  intros Hwf Hrows Hmasses.
  assert (Hacc : accelleration grav_const s = [replicate (shape1 (all_positions s)) 0]).
  { destruct Hwf as (Hp & _ & _ & _ & Hm).
    unfold wf_array in Hp. rewrite Hrows in Hp. apply Forall_cons in Hp as [Hp _].
    rewrite Kernel.accelleration_rows by exact Hm.
    unfold pairwise_acceleration. rewrite Hrows, Hmasses.
    cbn [map zip_with]. rewrite Pairs.contribution_coincident, Hp.
    by rewrite Advance.sum_rows_zero_row, Advance.map_scale_zero. }
  split; [exact Hacc|].
  unfold step. cbn [snd all_velocities]. rewrite Hacc.
  destruct Hwf as (_ & Hv & Hd & Hn & _).
  unfold wf_array, shape0 in *. rewrite Hrows in Hn.
  destruct (all_velocities s) as [d' vs]. cbn [rows shape1] in *.
  destruct vs as [|v [|v' vs]]; try discriminate Hn.
  apply Forall_cons in Hv as [Hv _].
  unfold advance. cbn [rows shape1 map zip_with]. do 2 f_equal.
  rewrite <- Hd. apply Laws.zip_with_Rplus_zeros; [ring | exact Hv].
Qed.

Lemma wf_system_single : wf_system system_single.
Proof.
  unfold wf_system, wf_array, shape0. simpl.
  repeat split; repeat constructor.
Defined.

Lemma single_body_is_not_accelerated_witness :
  (wf_system system_single /\
   rows (all_positions system_single) = [[3; 4]] /\
   all_masses system_single = [5]) /\
  accelleration 1 system_single = [replicate (shape1 (all_positions system_single)) 0] /\
  all_velocities (snd (step NumpyFrom_2_2 1 1 true system_single))
  = all_velocities system_single.
Proof.
  split; [split; [exact wf_system_single | split; reflexivity]|].
  exact (single_body_is_not_accelerated NumpyFrom_2_2 1 1 5 [3; 4] system_single
           wf_system_single eq_refl eq_refl).
Defined.

(** X11: the accelerations of a well-formed system do not change when
    every position is shifted by the same vector. *)
Theorem accelleration_translation_invariant (grav_const : R) (t : list R)
    (s : StaticSystem) :
  wf_system s ->
  length t = shape1 (all_positions s) ->
  accelleration grav_const (translate t s) = accelleration grav_const s.
Proof.
  intros (Hp & _ & _ & _ & Hm) Ht.
  rewrite !Kernel.accelleration_rows
    by (unfold translate, shape0 in *; cbn [all_masses all_positions rows];
        rewrite ?length_map; exact Hm).
  unfold pairwise_acceleration, translate.
  cbn [all_positions all_masses rows shape1].
  unfold wf_array in Hp.
  rewrite map_map. apply map_ext_Forall.
  eapply Forall_impl; [exact Hp|]. intros pi Hpi. simpl in Hpi. cbn beta.
  do 2 f_equal. rewrite Kernel.zip_with_map_l.
  apply (Advance.zip_with_ext_Forall _ _ _ _ _ Hp).
  intros pj mj Hpj. simpl in Hpj.
  unfold contribution.
  by rewrite Advance.connection_vector_translate by congruence.
Qed.

Lemma accelleration_translation_invariant_witness :
  (wf_system system_AB /\ length [1; 2; 3] = shape1 (all_positions system_AB)) /\
  accelleration 1 (translate [1; 2; 3] system_AB) = accelleration 1 system_AB.
Proof.
  split; [split; [exact Examples.wf_system_AB | reflexivity]|].
  exact (accelleration_translation_invariant 1 [1; 2; 3] system_AB
           Examples.wf_system_AB eq_refl).
Defined.

(** X12: after the guard of line 116 no entry of the distance map is
    zero, for any system. *)
Theorem guarded_distances_never_zero (s : StaticSystem) :
  Forall (Forall (fun d => d <> 0)) (dist_map_rs s).
Proof.
  unfold dist_map_rs. apply Forall_map, Forall_forall. intros row _.
  apply Forall_map, Forall_forall. intros d _. apply Norm.guard_never_zero.
Qed.

(** X13: the distance map is symmetric, its diagonal is zero and the
    guard turns the diagonal into one. *)
Theorem dist_map_symmetric (s : StaticSystem) (i j : nat) (pi pj : list R) :
  rows (all_positions s) !! i = Some pi ->
  rows (all_positions s) !! j = Some pj ->
  entry (dist_map s) i j = entry (dist_map s) j i /\
  entry (dist_map s) i i = Some 0 /\
  entry (dist_map_rs s) i i = Some 1.
Proof.
  intros Hi Hj.
  rewrite (Pairs.entry_dist_map s i j pi pj Hi Hj).
  rewrite (Pairs.entry_dist_map s j i pj pi Hj Hi).
  rewrite (Pairs.entry_dist_map s i i pi pi Hi Hi).
  rewrite (Pairs.entry_dist_map_rs s i i pi pi Hi Hi).
  assert (H0 : norm (connection_vector pi pi) = 0)
    by (by apply Norm.distance_zero_iff).
  rewrite H0, Norm.guard_zero. split; [|done].
  f_equal. apply Bodies.norm_symmetric.
Qed.

Lemma dist_map_symmetric_witness :
  (rows (all_positions system_AB) !! 0%nat = Some [0; 0; 0] /\
   rows (all_positions system_AB) !! 1%nat = Some [1; 0; 0]) /\
  entry (dist_map system_AB) 0 1 = entry (dist_map system_AB) 1 0 /\
  entry (dist_map system_AB) 0 0 = Some 0 /\
  entry (dist_map_rs system_AB) 0 0 = Some 1.
Proof.
  split; [split; reflexivity|].
  exact (dist_map_symmetric system_AB 0 1 [0; 0; 0] [1; 0; 0] eq_refl eq_refl).
Defined.

(** X14: under exact arithmetic, the contributions of two slots on each
    other, weighted by the masses of the slots they act on, are
    opposite. *)
Theorem contributions_are_opposite (s : StaticSystem) (i j : nat)
    (pi pj : list R) (mi mj : R) :
  wf_system s ->
  rows (all_positions s) !! i = Some pi ->
  rows (all_positions s) !! j = Some pj ->
  all_masses s !! i = Some mi ->
  all_masses s !! j = Some mj ->
  exists c c' : list R,
    entry (mx s) i j = Some c /\
    entry (mx s) j i = Some c' /\
    map (fun x => mi * x) c = map (fun x => - (mj * x)) c'.
Proof.
  intros (_ & _ & _ & _ & Hm) Hi Hj Hmi Hmj.
  eexists _, _.
  split; [exact (Pairs.entry_mx s i j pi pj mj Hm Hi Hj Hmj)|].
  split; [exact (Pairs.entry_mx s j i pj pi mi Hm Hj Hi Hmi)|].
  unfold contribution. rewrite !map_map.
  rewrite (Bodies.norm_symmetric pj pi
           : norm (connection_vector pj pi) = norm (connection_vector pi pj)).
  generalize (guard (norm (connection_vector pi pj)) ^ 3). intros g.
  unfold connection_vector.
  apply Laws.map_difference_swap. intros x y. unfold Rdiv. ring.
Qed.

Lemma contributions_are_opposite_witness :
  (wf_system system_pair /\
   rows (all_positions system_pair) !! 0%nat = Some [0; 0] /\
   rows (all_positions system_pair) !! 1%nat = Some [3; 4] /\
   all_masses system_pair !! 0%nat = Some 2 /\
   all_masses system_pair !! 1%nat = Some 3) /\
  exists c c' : list R,
    entry (mx system_pair) 0 1 = Some c /\
    entry (mx system_pair) 1 0 = Some c' /\
    map (fun x => 2 * x) c = map (fun x => - (3 * x)) c'.
Proof.
  split; [split; [exact Examples.wf_system_pair | repeat split; reflexivity]|].
  exact (contributions_are_opposite system_pair 0 1 [0; 0] [3; 4] 2 3
           Examples.wf_system_pair eq_refl eq_refl eq_refl eq_refl).
Defined.

(** X16: under exact arithmetic, on a well-formed system with a total
    mass that is not zero, [fix] leaves a well-formed system and does
    not change the velocity of any body relative to any other.  The
    witness is [system_pair], whose velocities [fix] changes. *)
Theorem fix_keeps_relative_velocities (s : StaticSystem) :
  wf_system s -> Rsum (all_masses s) <> 0 ->
  exists s1 : StaticSystem,
    fix_ s = (Return tt, finite_system s1) /\
    wf_system s1 /\
    forall (i j : nat) (vi vj : list R),
      rows (all_velocities s) !! i = Some vi ->
      rows (all_velocities s) !! j = Some vj ->
      exists wi wj : list R,
        rows (all_velocities s1) !! i = Some wi /\
        rows (all_velocities s1) !! j = Some wj /\
        zip_with Rminus wi wj = zip_with Rminus vi vj.
Proof.
  intros Hwf HM. exists (recentred s).
  split; [by apply Recentring.fix_recentred|].
  split; [by apply Advance.recentred_wf|].
  intros i j vi vj Hi Hj.
  unfold recentred. cbn [all_velocities rows].
  set (c := map (fun x => x / Rsum (all_masses s)) (total_pulse s)).
  exists (zip_with Rminus vi c), (zip_with Rminus vj c).
  rewrite !Kernel.lookup_map, Hi, Hj. split; [reflexivity|]. split; [reflexivity|].
  assert (Hc : length c = shape1 (all_velocities s)).
  { unfold c. rewrite length_map. by apply Laws.length_total_pulse. }
  destruct Hwf as (_ & Hv & _).
  unfold wf_array in Hv. rewrite Forall_lookup in Hv.
  apply Laws.difference_recentred.
  - by rewrite (Hv i vi Hi).
  - by rewrite (Hv j vj Hj).
Qed.

Lemma fix_keeps_relative_velocities_witness :
  (wf_system system_pair /\ Rsum (all_masses system_pair) <> 0) /\
  exists s1 : StaticSystem,
    fix_ system_pair = (Return tt, finite_system s1) /\
    wf_system s1 /\
    forall (i j : nat) (vi vj : list R),
      rows (all_velocities system_pair) !! i = Some vi ->
      rows (all_velocities system_pair) !! j = Some vj ->
      exists wi wj : list R,
        rows (all_velocities s1) !! i = Some wi /\
        rows (all_velocities s1) !! j = Some wj /\
        zip_with Rminus wi wj = zip_with Rminus vi vj.
Proof.
  split; [split; [exact Examples.wf_system_pair | exact Examples.masses_pair_nonzero]|].
  exact (fix_keeps_relative_velocities system_pair Examples.wf_system_pair
           Examples.masses_pair_nonzero).
Defined.

(** X17: under exact arithmetic, after [fix] on a well-formed system
    with a total mass that is not zero, an in-place step leaves the
    total momentum at zero.  The witness is [system_pair], whose
    momentum before [fix] is not zero. *)
Theorem momentum_stays_zero_after_fix (np : numpy_version) (dt grav_const : R)
    (s : StaticSystem) :
  wf_system s -> Rsum (all_masses s) <> 0 ->
  exists s1 : StaticSystem,
    fix_ s = (Return tt, finite_system s1) /\
    total_pulse (snd (step np dt grav_const true s1))
    = replicate (shape1 (all_velocities s)) 0.
Proof.
  intros Hwf HM. exists (recentred s).
  split; [by apply Recentring.fix_recentred|].
  rewrite Advance.total_pulse_step_wf by (by apply Advance.recentred_wf).
  by apply Recentring.total_pulse_recentred_wf.
Qed.

Lemma momentum_stays_zero_after_fix_witness :
  (wf_system system_pair /\ Rsum (all_masses system_pair) <> 0) /\
  exists s1 : StaticSystem,
    fix_ system_pair = (Return tt, finite_system s1) /\
    total_pulse (snd (step NumpyFrom_2_2 1 1 true s1))
    = replicate (shape1 (all_velocities system_pair)) 0.
Proof.
  split; [split; [exact Examples.wf_system_pair | exact Examples.masses_pair_nonzero]|].
  exact (momentum_stays_zero_after_fix NumpyFrom_2_2 1 1 system_pair
           Examples.wf_system_pair Examples.masses_pair_nonzero).
Defined.

(** X19: under exact arithmetic, on a well-formed system with a total
    mass that is not zero, [centre_of_mass] returns finite coordinates,
    as many as the positions have, and each times the total mass is the
    sum of the masses times that coordinate of the positions. *)
Theorem centre_of_mass_weighted_average (s : StaticSystem) :
  wf_system s -> Rsum (all_masses s) <> 0 ->
  exists c : list R,
    centre_of_mass s = (Return (map Finite c), s) /\
    length c = shape1 (all_positions s) /\
    forall k : nat,
      nth k c 0 * Rsum (all_masses s)
      = Rsum (zip_with (fun p m => nth k p 0 * m)
                (rows (all_positions s)) (all_masses s)).
Proof.
  intros Hwf HM. exists (centre s).
  split; [by apply Advance.centre_of_mass_centre|].
  destruct (Advance.wf_system_of_bodies s Hwf) as (idx & d & bodies & -> & Hp & Hv).
  unfold centre. cbn [all_positions all_masses rows shape1] in *.
  split.
  - rewrite length_map. by apply Bodies.length_weighted_sum.
  - intros k.
    rewrite (Sums.nth_map_linear (fun x => x / Rsum (map mass bodies)))
      by (unfold Rdiv; ring).
    rewrite Bodies.nth_weighted_sum by assumption.
    rewrite Kernel.zip_with_map_map. field. exact HM.
Qed.

Lemma centre_of_mass_weighted_average_witness :
  (wf_system system_pair /\ Rsum (all_masses system_pair) <> 0) /\
  exists c : list R,
    centre_of_mass system_pair = (Return (map Finite c), system_pair) /\
    length c = shape1 (all_positions system_pair) /\
    forall k : nat,
      nth k c 0 * Rsum (all_masses system_pair)
      = Rsum (zip_with (fun p m => nth k p 0 * m)
                (rows (all_positions system_pair)) (all_masses system_pair)).
Proof.
  split; [split; [exact Examples.wf_system_pair | exact Examples.masses_pair_nonzero]|].
  exact (centre_of_mass_weighted_average system_pair Examples.wf_system_pair
           Examples.masses_pair_nonzero).
Defined.

(** X18: under exact arithmetic, on a well-formed system with a total
    mass that is not zero, an in-place step moves the centre of mass by
    the timestep times the total momentum over the total mass, whatever
    the gravitational constant.  The witness is [system_pair], whose
    momentum is not zero, so that its centre of mass does move. *)
Theorem centre_of_mass_moves_uniformly (np : numpy_version) (dt grav_const : R)
    (s : StaticSystem) :
  wf_system s -> Rsum (all_masses s) <> 0 ->
  let s' := snd (step np dt grav_const true s) in
  exists c : list R,
    centre_of_mass s = (Return (map Finite c), s) /\
    centre_of_mass s'
    = (Return (map Finite
                 (zip_with (fun x p => x + p / Rsum (all_masses s) * dt)
                    c (total_pulse s))),
       s').
Proof.
  intros Hwf HM s'. exists (centre s).
  split; [by apply Advance.centre_of_mass_centre|].
  assert (Hwf' : wf_system s').
  { destruct (Advance.wf_system_of_bodies s Hwf) as (idx & d & bodies & Hs & Hp & Hv).
    unfold s'. rewrite Hs, Advance.step_bodies.
    apply Advance.bodies_wf.
    - apply Forall_forall. intros b Hb. rewrite Forall_forall in Hp, Hv.
      rewrite length_zip_with, length_map, (Hp b Hb), (Hv b Hb). lia.
    - apply Forall_forall. intros b Hb. rewrite Forall_forall in Hv.
      rewrite length_zip_with, length_map, (Hv b Hb).
      rewrite (Bodies.length_acc_at d bodies Hp).
      + lia.
      + rewrite Forall_forall in Hp. by apply Hp. }
  assert (HM' : all_masses s' = all_masses s) by reflexivity.
  rewrite Advance.centre_of_mass_centre by (by rewrite HM').
  do 3 f_equal. clear Hwf'.
  destruct (Advance.wf_system_of_bodies s Hwf) as (idx & d & bodies & -> & Hp & Hv).
  unfold s'. rewrite Advance.step_bodies.
  unfold centre, total_pulse.
  cbn [all_positions all_velocities all_masses rows shape1] in *.
  set (M := Rsum (map mass bodies)) in *.
  set (P := fun b => zip_with Rplus (position b) (map (fun x => x * dt) (velocity b))).
  assert (HP : Forall (fun b => length (P b) = d) bodies).
  { apply Forall_forall. intros b Hb. rewrite Forall_forall in Hp, Hv. unfold P.
    rewrite length_zip_with, length_map, (Hp b Hb), (Hv b Hb). lia. }
  apply (nth_ext _ _ 0 0).
  - rewrite length_zip_with, !length_map.
    rewrite !Bodies.length_weighted_sum by assumption. lia.
  - intros k _.
    rewrite Laws.nth_zip_with_null;
      [|unfold Rdiv; ring
       |rewrite length_map, !Bodies.length_weighted_sum by assumption; reflexivity].
    rewrite !(Sums.nth_map_linear (fun x => x / M)) by (unfold Rdiv; ring).
    rewrite !Bodies.nth_weighted_sum by assumption.
    rewrite (map_ext_Forall _
               (fun b => nth k (position b) 0 * mass b
                         + dt * (nth k (velocity b) 0 * mass b))).
    + rewrite Sums.Rsum_map_plus, Sums.Rsum_map_scale. field. exact HM.
    + apply Forall_forall. intros b Hb. rewrite Forall_forall in Hp, Hv. unfold P.
      rewrite Sums.nth_zip_with_Rplus by (by rewrite length_map, (Hp b Hb), (Hv b Hb)).
      rewrite (Sums.nth_map_linear (fun x => x * dt)) by ring. ring.
Qed.

Lemma centre_of_mass_moves_uniformly_witness :
  (wf_system system_pair /\ Rsum (all_masses system_pair) <> 0) /\
  let s' := snd (step NumpyFrom_2_2 1 1 true system_pair) in
  exists c : list R,
    centre_of_mass system_pair = (Return (map Finite c), system_pair) /\
    centre_of_mass s'
    = (Return (map Finite
                 (zip_with (fun x p => x + p / Rsum (all_masses system_pair) * 1)
                    c (total_pulse system_pair))),
       s').
Proof.
  split; [split; [exact Examples.wf_system_pair | exact Examples.masses_pair_nonzero]|].
  exact (centre_of_mass_moves_uniformly NumpyFrom_2_2 1 1 system_pair
           Examples.wf_system_pair Examples.masses_pair_nonzero).
Defined.
